(** * ST7735 display-controller chip: protocol state machine and pixel writer

    A shallow embedding of [src/main.c] (the Wokwi custom chip emulating an
    ST7735 TFT controller on an SPI bus) together with the properties of its
    command parser, addressing registers and pixel writer.

    Conventions.
    - C integers are modelled as [Z]; every place where the C type truncates
      is written out with [u8], [u16], [u32] (unsigned wrap-around) or [s32]
      (conversion to [int]).  The chip is built for wasm32, where [int] and
      [size_t] are 32 bits wide and memory is little-endian.
    - The chip state is the struct [chip_state_t] without the handles of the
      simulator API (pins, SPI device, framebuffer handle).
    - Calls into the simulator API that leave the chip ([buffer_write],
      [printf], [spi_start], [spi_stop]) are recorded as a list of [output]s.
    - A store outside the 16-byte array [command_buf] is undefined behaviour
      in C; the embedding makes it an explicit failure ([None]). *)

From Stdlib Require Import ZArith Lia List Bool.
From stdpp Require Import base list.

Local Open Scope Z_scope.

(** ** Machine integers *)

Definition u8 (z : Z) : Z := z mod 2 ^ 8.
Definition u16 (z : Z) : Z := z mod 2 ^ 16.
Definition u32 (z : Z) : Z := z mod 2 ^ 32.
(** Conversion of a 32-bit pattern to [int] (two's complement). *)
Definition s32 (z : Z) : Z := (z + 2 ^ 31) mod 2 ^ 32 - 2 ^ 31.

Definition is_u8 (z : Z) : Prop := 0 <= z < 2 ^ 8.
Definition is_u16 (z : Z) : Prop := 0 <= z < 2 ^ 16.
Definition is_u32 (z : Z) : Prop := 0 <= z < 2 ^ 32.

(** ** Data model *)

Inductive chip_mode_t := MODE_COMMAND | MODE_DATA.

(** The three watched pins and the two levels a digital pin can take. *)
Inductive pin_t := CS | DC | RST.
Inductive level := LOW | HIGH.

(** [chip->mode = value]: LOW is 0 = MODE_COMMAND, HIGH is 1 = MODE_DATA. *)
Definition mode_of_level (v : level) : chip_mode_t :=
  match v with LOW => MODE_COMMAND | HIGH => MODE_DATA end.

Definition mode_eqb (a b : chip_mode_t) : bool :=
  match a, b with
  | MODE_COMMAND, MODE_COMMAND | MODE_DATA, MODE_DATA => true
  | _, _ => false
  end.

Definition level_eqb (a b : level) : bool :=
  match a, b with
  | LOW, LOW | HIGH, HIGH => true
  | _, _ => false
  end.

Record chip_state_t := mk_chip {
  (* Framebuffer state *)
  width : Z;
  height : Z;
  (* Command state machine *)
  mode : chip_mode_t;
  command_code : Z;
  command_size : Z;
  command_index : Z;
  command_buf : list Z;
  ram_write : bool;
  (* Memory and addressing settings *)
  active_column : Z;
  column_start : Z;
  column_end : Z;
  active_row : Z;
  row_start : Z;
  row_end : Z;
  scanning_direction : Z
}.

Definition set_mode (v : chip_mode_t) (s : chip_state_t) : chip_state_t :=
  let 'mk_chip w h _ cc cs ci cb rw ac c0 c1 ar r0 r1 sd := s in
  mk_chip w h v cc cs ci cb rw ac c0 c1 ar r0 r1 sd.
Definition set_command_code (v : Z) (s : chip_state_t) : chip_state_t :=
  let 'mk_chip w h m _ cs ci cb rw ac c0 c1 ar r0 r1 sd := s in
  mk_chip w h m v cs ci cb rw ac c0 c1 ar r0 r1 sd.
Definition set_command_size (v : Z) (s : chip_state_t) : chip_state_t :=
  let 'mk_chip w h m cc _ ci cb rw ac c0 c1 ar r0 r1 sd := s in
  mk_chip w h m cc v ci cb rw ac c0 c1 ar r0 r1 sd.
Definition set_command_index (v : Z) (s : chip_state_t) : chip_state_t :=
  let 'mk_chip w h m cc cs _ cb rw ac c0 c1 ar r0 r1 sd := s in
  mk_chip w h m cc cs v cb rw ac c0 c1 ar r0 r1 sd.
Definition set_command_buf (v : list Z) (s : chip_state_t) : chip_state_t :=
  let 'mk_chip w h m cc cs ci _ rw ac c0 c1 ar r0 r1 sd := s in
  mk_chip w h m cc cs ci v rw ac c0 c1 ar r0 r1 sd.
Definition set_ram_write (v : bool) (s : chip_state_t) : chip_state_t :=
  let 'mk_chip w h m cc cs ci cb _ ac c0 c1 ar r0 r1 sd := s in
  mk_chip w h m cc cs ci cb v ac c0 c1 ar r0 r1 sd.
Definition set_active_column (v : Z) (s : chip_state_t) : chip_state_t :=
  let 'mk_chip w h m cc cs ci cb rw _ c0 c1 ar r0 r1 sd := s in
  mk_chip w h m cc cs ci cb rw v c0 c1 ar r0 r1 sd.
Definition set_column_start (v : Z) (s : chip_state_t) : chip_state_t :=
  let 'mk_chip w h m cc cs ci cb rw ac _ c1 ar r0 r1 sd := s in
  mk_chip w h m cc cs ci cb rw ac v c1 ar r0 r1 sd.
Definition set_column_end (v : Z) (s : chip_state_t) : chip_state_t :=
  let 'mk_chip w h m cc cs ci cb rw ac c0 _ ar r0 r1 sd := s in
  mk_chip w h m cc cs ci cb rw ac c0 v ar r0 r1 sd.
Definition set_active_row (v : Z) (s : chip_state_t) : chip_state_t :=
  let 'mk_chip w h m cc cs ci cb rw ac c0 c1 _ r0 r1 sd := s in
  mk_chip w h m cc cs ci cb rw ac c0 c1 v r0 r1 sd.
Definition set_row_start (v : Z) (s : chip_state_t) : chip_state_t :=
  let 'mk_chip w h m cc cs ci cb rw ac c0 c1 ar _ r1 sd := s in
  mk_chip w h m cc cs ci cb rw ac c0 c1 ar v r1 sd.
Definition set_row_end (v : Z) (s : chip_state_t) : chip_state_t :=
  let 'mk_chip w h m cc cs ci cb rw ac c0 c1 ar r0 _ sd := s in
  mk_chip w h m cc cs ci cb rw ac c0 c1 ar r0 v sd.
Definition set_scanning_direction (v : Z) (s : chip_state_t) : chip_state_t :=
  let 'mk_chip w h m cc cs ci cb rw ac c0 c1 ar r0 r1 _ := s in
  mk_chip w h m cc cs ci cb rw ac c0 c1 ar r0 r1 v.

(** Chip command codes. *)
Definition CMD_NOP : Z := 0x00.
Definition CMD_CASET : Z := 0x2a.
Definition CMD_RASET : Z := 0x2b.
Definition CMD_RAMWR : Z := 0x2c.
Definition CMD_RAMRD : Z := 0x2e.
Definition CMD_MADCTL : Z := 0x36.

(** Scanning direction bits. *)
Definition SCAN_MY : Z := 0x80.
Definition SCAN_MX : Z := 0x40.
Definition SCAN_MV : Z := 0x20.

(** [sd & BIT] used as a C condition. *)
Definition scan_bit (sd bit : Z) : bool := negb (Z.land sd bit =? 0).

(** ** Effects: a state monad with an output log and failure *)

Inductive output :=
  | BufferWrite (offset : Z) (color : Z)   (* buffer_write(framebuffer, offset, &color, 4) *)
  | UnknownCommand (code : Z)              (* printf("Warning: unknown command ...") *)
  | SpiStart                               (* spi_start(spi, spi_buffer, 1024) *)
  | SpiStop.                               (* spi_stop(spi) *)

Definition M (A : Type) : Type :=
  chip_state_t -> option (A * chip_state_t * list output).

Definition ret {A} (a : A) : M A := fun s => Some (a, s, []).

Definition bind {A B} (m : M A) (k : A -> M B) : M B :=
  fun s =>
    match m s with
    | None => None
    | Some (a, s1, o1) =>
        match k a s1 with
        | None => None
        | Some (b, s2, o2) => Some (b, s2, o1 ++ o2)
        end
    end.

Notation "x <- m ;; k" := (bind m (fun x => k))
  (at level 100, m at next level, right associativity).
Notation "m ;;; k" := (bind m (fun _ => k))
  (at level 100, right associativity).

Definition get {A} (f : chip_state_t -> A) : M A := fun s => Some (f s, s, []).
Definition modify (f : chip_state_t -> chip_state_t) : M unit :=
  fun s => Some (tt, f s, []).
Definition emit (o : output) : M unit := fun s => Some (tt, s, [o]).
Definition undefined_behaviour {A} : M A := fun _ => None.
Definition when (b : bool) (m : M unit) : M unit := if b then m else ret tt.

(** [for (int i = 0; i < buffer_size; i++) body(buffer[i])]. *)
Fixpoint for_each {A} (buffer : list A) (body : A -> M unit) : M unit :=
  match buffer with
  | [] => ret tt
  | x :: rest => body x ;;; for_each rest body
  end.

(** The state and the outputs of a run that did not fail. *)
Definition exec {A} (m : M A) (s : chip_state_t) : option chip_state_t :=
  match m s with Some (_, s', _) => Some s' | None => None end.
Definition outputs {A} (m : M A) (s : chip_state_t) : list output :=
  match m s with Some (_, _, o) => o | None => [] end.

(** ** The program *)

(** [chip_reset], main.c lines 58-67. *)
Definition chip_reset : M unit :=
  modify (set_ram_write false) ;;;
  modify (set_active_column 0) ;;;
  modify (set_column_start 0) ;;;
  modify (set_column_end 127) ;;;
  modify (set_active_row 0) ;;;
  modify (set_row_start 0) ;;;
  modify (set_row_end 35).

(** [rgb565_to_rgba], main.c lines 104-109.  The argument is a [uint16_t]. *)
Definition rgb565_to_rgba (value : Z) : Z :=
  Z.lor (Z.lor (Z.lor 0xff000000
                      (Z.shiftl (Z.land value 0x001f) 19))  (* Blue *)
               (Z.shiftl (Z.land value 0x07e0) 5))          (* Green *)
        (Z.shiftr (Z.land value 0xf800) 8).                 (* Red *)

(** [command_args_size], main.c lines 142-149. *)
Definition command_args_size (code : Z) : Z :=
  if code =? CMD_MADCTL then 1
  else if (code =? CMD_CASET) || (code =? CMD_RASET) then 4
  else 0.

(** [(chip->command_buf[i] << 8) | chip->command_buf[i + 1]] stored in a
    [uint16_t], main.c lines 164-165. *)
Definition arg16 (hi lo : Z) : Z := u16 (Z.lor (Z.shiftl hi 8) lo).

(** [execute_command], main.c lines 151-183. *)
Definition execute_command : M unit :=
  code <- get command_code ;;
  if code =? CMD_RAMWR then
    modify (set_ram_write true)
  else if code =? CMD_MADCTL then
    buf <- get command_buf ;;
    modify (set_scanning_direction (Z.land (buf !!! 0%nat) 0xfc))
  else if (code =? CMD_CASET) || (code =? CMD_RASET) then
    buf <- get command_buf ;;
    let arg0 := arg16 (buf !!! 0%nat) (buf !!! 1%nat) in
    let arg2 := arg16 (buf !!! 2%nat) (buf !!! 3%nat) in
    let set_row := code =? CMD_RASET in
    sd <- get scanning_direction ;;
    if (if scan_bit sd SCAN_MV then negb set_row else set_row) then
      modify (set_active_row arg0) ;;;
      modify (set_row_start arg0) ;;;
      modify (set_row_end arg2)
    else
      modify (set_active_column arg0) ;;;
      modify (set_column_start arg0) ;;;
      modify (set_column_end arg2)
  else
    emit (UnknownCommand code).

(** The loop body of [process_command], main.c lines 188-193. *)
Definition process_command_byte (b : Z) : M unit :=
  modify (set_command_code b) ;;;
  code <- get command_code ;;
  modify (set_command_size (u8 (command_args_size code))) ;;;
  modify (set_command_index 0) ;;;
  size <- get command_size ;;
  when (size =? 0) execute_command.

(** [process_command], main.c lines 185-195. *)
Definition process_command (buffer : list Z) : M unit :=
  modify (set_ram_write false) ;;;
  for_each buffer process_command_byte.

(** [chip->command_buf[i] = v]: the array has 16 elements. *)
Definition store_command_buf (i v : Z) : M unit :=
  if (0 <=? i) && (i <? 16) then
    modify (fun s => set_command_buf (<[Z.to_nat i := v]> (command_buf s)) s)
  else undefined_behaviour.

(** The loop body of [process_command_args], main.c lines 199-204. *)
Definition process_command_args_byte (b : Z) : M unit :=
  index <- get command_index ;;
  size <- get command_size ;;
  when (index <? size) (
    store_command_buf index b ;;;
    modify (set_command_index (u8 (index + 1))) ;;;
    size <- get command_size ;;
    index <- get command_index ;;
    when (size =? index) execute_command).

(** [process_command_args], main.c lines 197-206. *)
Definition process_command_args (buffer : list Z) : M unit :=
  for_each buffer process_command_args_byte.

(** The local [x] of [process_data] after main.c lines 212-220: [int x] is
    read from the cursor and mirrored in unsigned arithmetic. *)
Definition pixel_x (s : chip_state_t) : Z :=
  let x := s32 (active_column s) in
  let sd := scanning_direction s in
  if scan_bit sd SCAN_MV then
    s32 (if scan_bit sd SCAN_MX then u32 (u32 (width s - 1) - u32 x) else u32 x)
  else
    s32 (if scan_bit sd SCAN_MY then u32 (u32 (width s - 1) - u32 x) else u32 x).

(** The local [y] of [process_data] after main.c lines 212-220. *)
Definition pixel_y (s : chip_state_t) : Z :=
  let y := s32 (active_row s) in
  let sd := scanning_direction s in
  if scan_bit sd SCAN_MV then
    s32 (if scan_bit sd SCAN_MY then u32 (u32 (height s - 1) - u32 y) else u32 y)
  else
    s32 (if scan_bit sd SCAN_MX then u32 (u32 (height s - 1) - u32 y) else u32 y).

(** [int pix_index = y * chip->width + x], main.c line 223. *)
Definition pix_index (s : chip_state_t) : Z :=
  s32 (u32 (u32 (u32 (pixel_y s) * width s) + u32 (pixel_x s))).

(** [pix_index * sizeof(color)], the offset handed to [buffer_write]. *)
Definition pix_offset (s : chip_state_t) : Z := u32 (u32 (pix_index s) * 4).

(** Cursor advancement, main.c lines 226-244. *)
Definition advance_cursor : M unit :=
  sd <- get scanning_direction ;;
  if scan_bit sd SCAN_MV then
    modify (fun s => set_active_row (u32 (active_row s + 1)) s) ;;;
    row <- get active_row ;;
    rend <- get row_end ;;
    when (row >? rend) (
      modify (fun s => set_active_row (row_start s) s) ;;;
      modify (fun s => set_active_column (u32 (active_column s + 1)) s) ;;;
      col <- get active_column ;;
      cend <- get column_end ;;
      when (col >? cend)
        (modify (fun s => set_active_column (column_start s) s)))
  else
    modify (fun s => set_active_column (u32 (active_column s + 1)) s) ;;;
    col <- get active_column ;;
    cend <- get column_end ;;
    when (col >? cend) (
      modify (fun s => set_active_column (column_start s) s) ;;;
      modify (fun s => set_active_row (u32 (active_row s + 1)) s) ;;;
      row <- get active_row ;;
      rend <- get row_end ;;
      when (row >? rend)
        (modify (fun s => set_active_row (row_start s) s))).

(** The loop body of [process_data], main.c lines 212-244. *)
Definition process_data_sample (sample : Z) : M unit :=
  offset <- get pix_offset ;;
  emit (BufferWrite offset (rgb565_to_rgba sample)) ;;;
  advance_cursor.

(** [process_data], main.c lines 208-246; [buffer16] is the list of the
    [buffer_size] samples read through the [uint16_t] pointer. *)
Definition process_data (buffer16 : list Z) : M unit :=
  for_each buffer16 process_data_sample.

(** The [count / 2] samples seen when [buffer] is read as an array of
    [uint16_t] on the little-endian target; an odd trailing byte is not read. *)
Fixpoint samples_of (buffer : list Z) : list Z :=
  match buffer with
  | lo :: hi :: rest => Z.lor lo (Z.shiftl hi 8) :: samples_of rest
  | _ => []
  end.

(** [chip_spi_done], main.c lines 248-270.  [buffer] holds the [count] bytes
    received; [cs] is the level [pin_read(chip->cs_pin)] returns. *)
Definition chip_spi_done (cs : level) (buffer : list Z) : M unit :=
  match buffer with
  | [] => ret tt
  | _ :: _ =>
      m <- get mode ;;
      (if mode_eqb m MODE_DATA then
         rw <- get ram_write ;;
         if rw then process_data (samples_of buffer)
         else process_command_args buffer
       else process_command buffer) ;;;
      when (level_eqb cs LOW) (emit SpiStart)
  end.

(** [spi_stop(chip->spi)]: the simulator ends the running transfer and calls
    the [done] callback with the bytes received since the last [spi_start]
    ([pending], empty when nothing was received). *)
Definition spi_stop (cs : level) (pending : list Z) : M unit :=
  emit SpiStop ;;; chip_spi_done cs pending.

(** [chip_pin_change], main.c lines 111-140.  [cs] is the level of the CS pin
    before the event and [pending] what the transport holds; on a CS event
    [pin_read(chip->cs_pin)] returns the new [value]. *)
Definition chip_pin_change (cs : level) (pending : list Z)
    (pin : pin_t) (value : level) : M unit :=
  let cs := match pin with CS => value | _ => cs end in
  (match pin with
   | CS => if level_eqb value LOW then emit SpiStart else spi_stop cs pending
   | _ => ret tt
   end) ;;;
  m <- get mode ;;
  (match pin with
   | DC =>
       when (negb (mode_eqb m (mode_of_level value))) (
         when (level_eqb cs LOW) (spi_stop cs pending) ;;;
         modify (set_mode (mode_of_level value)) ;;;
         when (level_eqb cs LOW) (emit SpiStart))
   | _ => ret tt
   end) ;;;
  (match pin with
   | RST => when (level_eqb value LOW) (spi_stop cs pending ;;; chip_reset)
   | _ => ret tt
   end).

(** What the simulator does to the chip: it fills the SPI buffer and calls
    the [done] callback, or reports a pin transition. *)
Inductive event :=
  | SpiDone (cs : level) (buffer : list Z)
  | PinChange (cs : level) (pending : list Z) (pin : pin_t) (value : level).

Definition handle (e : event) : M unit :=
  match e with
  | SpiDone cs buffer => chip_spi_done cs buffer
  | PinChange cs pending pin value => chip_pin_change cs pending pin value
  end.

Definition run (events : list event) : M unit := for_each events handle.

(** ** Definitions used in the statements *)

(** A boolean test run on the [n] integers from [z] upwards. *)
Fixpoint check_from (P : Z -> bool) (n : nat) (z : Z) : bool :=
  match n with
  | O => true
  | S k => P z && check_from P k (z + 1)
  end.

(** The four channel equations of [rgb565_to_rgba] as one boolean test. *)
Definition rgba_channels_ok (v : Z) : bool :=
  let r := rgb565_to_rgba v in
  (0 <=? r) && (r <? 2 ^ 32)
  && (Z.shiftr r 24 =? 0xff)
  && (Z.land (Z.shiftr r 16) 0xff =? Z.shiftl (Z.land v 0x1f) 3)
  && (Z.land (Z.shiftr r 8) 0xff =? Z.shiftl (Z.land (Z.shiftr v 5) 0x3f) 2)
  && (Z.land r 0xff =? Z.shiftl (Z.shiftr v 11) 3).

(** The three orientation flags held in [scanning_direction]. *)
Definition swap_axes (s : chip_state_t) : bool := scan_bit (scanning_direction s) SCAN_MV.
Definition mirror_x (s : chip_state_t) : bool := scan_bit (scanning_direction s) SCAN_MX.
Definition mirror_y (s : chip_state_t) : bool := scan_bit (scanning_direction s) SCAN_MY.

(** Setting one axis: the cursor goes to [start], the bounds to [start, stop]. *)
Definition with_column_window (start stop : Z) (s : chip_state_t) : chip_state_t :=
  set_column_end stop (set_column_start start (set_active_column start s)).
Definition with_row_window (start stop : Z) (s : chip_state_t) : chip_state_t :=
  set_row_end stop (set_row_start start (set_active_row start s)).

Definition set_cursor (col row : Z) (s : chip_state_t) : chip_state_t :=
  set_active_row row (set_active_column col s).

(** [s'] is [s] with another cursor. *)
Definition same_but_cursor (s s' : chip_state_t) : Prop :=
  s' = set_cursor (active_column s') (active_row s') s.

(** A command byte [b] has just been latched: code, expected count from the
    table, no argument received yet. *)
Definition start_command (b : Z) (s : chip_state_t) : chip_state_t :=
  set_command_index 0 (set_command_size (command_args_size b) (set_command_code b s)).

(** The parameter accumulator: code, expected count, received count, bytes. *)
Definition pending_command (s : chip_state_t) : Z * Z * Z * list Z :=
  (command_code s, command_size s, command_index s, command_buf s).

Definition accumulator_ok (s : chip_state_t) : Prop :=
  0 <= command_index s <= command_size s /\ command_size s <= 4.

(** The addressing and orientation registers and the ram-write flag. *)
Definition registers (s : chip_state_t) : Z * Z * Z * Z * Z * Z * Z * bool :=
  (column_start s, column_end s, row_start s, row_end s,
   active_column s, active_row s, scanning_direction s, ram_write s).

(** The addressing window and the raster order inside it. *)
Definition cursor_in_window (s : chip_state_t) : Prop :=
  column_start s <= active_column s <= column_end s
  /\ row_start s <= active_row s <= row_end s.

(** The window registers hold values below the largest [uint32_t]; this
    covers every window loaded from 16-bit arguments. *)
Definition window_typed (s : chip_state_t) : Prop :=
  0 <= column_start s /\ column_end s < 2 ^ 32 - 1
  /\ 0 <= row_start s /\ row_end s < 2 ^ 32 - 1.

Definition window_width (s : chip_state_t) : Z := column_end s - column_start s + 1.
Definition window_height (s : chip_state_t) : Z := row_end s - row_start s + 1.
Definition window_area (s : chip_state_t) : Z := window_width s * window_height s.

(** Position of the cursor in scan order, as the specification words it:
    the row is the fast axis when swap-axes is set, the column when it is
    clear. *)
Definition raster_index (s : chip_state_t) : Z :=
  if swap_axes s
  then (active_column s - column_start s) * window_height s + (active_row s - row_start s)
  else (active_row s - row_start s) * window_width s + (active_column s - column_start s).

(** The [k]-th position (column, row) of the window in scan order. *)
Definition raster_position (s : chip_state_t) (k : Z) : Z * Z :=
  if swap_axes s
  then (column_start s + k / window_height s, row_start s + k mod window_height s)
  else (column_start s + k mod window_width s, row_start s + k / window_width s).

(** The sink coordinates as the specification words them, over unbounded
    integers: with swap-axes set mirror-X reflects x and mirror-Y reflects y,
    with swap-axes clear the two flags change roles. *)
Definition sink_x (s : chip_state_t) : Z :=
  if swap_axes s
  then (if mirror_x s then width s - 1 - active_column s else active_column s)
  else (if mirror_y s then width s - 1 - active_column s else active_column s).
Definition sink_y (s : chip_state_t) : Z :=
  if swap_axes s
  then (if mirror_y s then height s - 1 - active_row s else active_row s)
  else (if mirror_x s then height s - 1 - active_row s else active_row s).

(** The window lies on the output surface. *)
Definition window_on_surface (s : chip_state_t) : Prop :=
  0 <= column_start s /\ column_start s <= column_end s < width s
  /\ 0 <= row_start s /\ row_start s <= row_end s < height s
  /\ width s < 2 ^ 32 /\ height s < 2 ^ 32.

(** A pixel write issued from a state that differs from [s] in the cursor
    only and whose cursor lies in the window. *)
Definition write_from_window (s : chip_state_t) (out : output) : Prop :=
  exists t v,
    out = BufferWrite (pix_offset t) (rgb565_to_rgba v)
    /\ same_but_cursor s t /\ cursor_in_window t.

(** The state reached when an address-set command [op] has been latched in
    command mode and its four arguments have arrived in data mode. *)
Definition after_address_set (op a0 a1 a2 a3 : Z) (s : chip_state_t) : chip_state_t :=
  let latched :=
    set_command_index 4
      (set_command_buf (a0 :: a1 :: a2 :: a3 :: drop 4 (command_buf s))
         (set_mode MODE_DATA (start_command op (set_ram_write false s)))) in
  match swap_axes s, op =? CMD_RASET with
  | true, true | false, false => with_column_window (arg16 a0 a1) (arg16 a2 a3) latched
  | true, false | false, true => with_row_window (arg16 a0 a1) (arg16 a2 a3) latched
  end.

(** The state of a 128 x 160 chip right after [chip_reset], in command mode,
    with a zeroed command state machine. *)
Definition reset_chip : chip_state_t :=
  mk_chip 128 160 MODE_COMMAND 0 0 0 (replicate 16 0) false 0 0 127 0 0 35 0.

(** A command other than Memory-Write is pending or complete in data mode
    with the ram-write flag inactive: data bytes go to the accumulator. *)
Definition collecting (s : chip_state_t) : Prop :=
  mode s = MODE_DATA /\ ram_write s = false
  /\ command_code s <> CMD_RAMWR /\ accumulator_ok s.

(** ** Concrete states and event sequences used as examples *)

(** A Column-Address-Set with two of its four arguments received. *)
Definition half_received_caset : chip_state_t :=
  mk_chip 128 160 MODE_DATA CMD_CASET 4 2 (0 :: 10 :: replicate 14 0)
    false 0 0 127 0 0 35 0.

(** Column-Address-Set(10, 20): opcode chunk, then argument chunk. *)
Definition split_delivery : list event :=
  [PinChange LOW [] DC LOW; SpiDone LOW [0x2a];
   PinChange LOW [] DC HIGH; SpiDone LOW [0; 10; 0; 20]].
(** The same five bytes in one chunk, in command mode and in data mode. *)
Definition one_chunk_in_command_mode : list event :=
  [PinChange LOW [] DC LOW; SpiDone LOW [0x2a; 0; 10; 0; 20]].
Definition one_chunk_in_data_mode : list event :=
  [PinChange LOW [] DC HIGH; SpiDone LOW [0x2a; 0; 10; 0; 20]].

(** Row-Address-Set with arguments 0x0005, 0x0102 received, swap-axes set. *)
Definition swapped_raset_chip : chip_state_t :=
  mk_chip 128 160 MODE_DATA CMD_RASET 4 4 (0 :: 5 :: 1 :: 2 :: replicate 12 0)
    false 7 0 127 9 0 35 SCAN_MV.

(** A 2 x 2 window with the cursor at column 1, row 0. *)
Definition small_window_chip (sd : Z) : chip_state_t :=
  mk_chip 128 160 MODE_DATA CMD_RAMWR 0 0 (replicate 16 0) true 1 0 1 0 0 1 sd.

(** Full-surface window, cursor at column 3, row 5, swap-axes and mirror-X. *)
Definition mirrored_chip : chip_state_t :=
  mk_chip 128 160 MODE_DATA CMD_RAMWR 0 0 (replicate 16 0) true
    3 0 127 5 0 159 (Z.lor SCAN_MV SCAN_MX).

(** Full-surface window, cursor in the last cell, both mirrors set. *)
Definition last_cell_chip : chip_state_t :=
  mk_chip 128 160 MODE_DATA CMD_RAMWR 0 0 (replicate 16 0) true
    127 0 127 159 0 159 (Z.lor SCAN_MY SCAN_MX).

(** A session with a reset in the middle of an argument transfer, surplus
    argument bytes and bytes flushed by a select-line release. *)
Definition busy_session : list event :=
  [PinChange HIGH [] CS LOW; SpiDone LOW [0x2a]; PinChange LOW [] DC HIGH;
   SpiDone LOW [0; 10]; PinChange LOW [] RST LOW; SpiDone LOW [0; 20; 1; 2; 3];
   PinChange LOW [] DC LOW; SpiDone LOW [0x36; 0x2c]; PinChange LOW [4; 5] CS HIGH].

(** ** Definitions used in the further properties *)

(** The codes with a case of their own in the switch of [execute_command]. *)
Definition known_command (b : Z) : bool :=
  (b =? CMD_RAMWR) || (b =? CMD_MADCTL) || (b =? CMD_CASET) || (b =? CMD_RASET).

(** The warnings a chunk of command bytes prints: one per byte that is not
    a known command, in order. *)
Definition warnings_of (buffer : list Z) : list output :=
  map UnknownCommand (List.filter (fun b => negb (known_command b)) buffer).

(** What one command byte does to the state: latch it, and raise the
    ram-write flag when it is Memory-Write. *)
Definition latch (b : Z) (s : chip_state_t) : chip_state_t :=
  if b =? CMD_RAMWR then set_ram_write true (start_command b s) else start_command b s.

(** Reading the RGB565 sample back from an RGBA value. *)
Definition rgba_to_rgb565 (r : Z) : Z :=
  Z.lor (Z.lor (Z.shiftl (Z.land r 0xf8) 8) (Z.land (Z.shiftr r 5) 0x07e0))
        (Z.land (Z.shiftr r 19) 0x1f).

Definition rgb565_round_trip (v : Z) : bool := rgba_to_rgb565 (rgb565_to_rgba v) =? v.

(** The three orientation bits of a Memory-Access-Control argument. *)
Definition madctl_bits_ok (b : Z) : bool :=
  let sd := Z.land b 0xfc in
  eqb (scan_bit sd SCAN_MY) (Z.testbit b 7)
  && eqb (scan_bit sd SCAN_MX) (Z.testbit b 6)
  && eqb (scan_bit sd SCAN_MV) (Z.testbit b 5)
  && (0 <=? sd) && (sd <? 256) && (Z.land sd 3 =? 0).

(** The addressing and orientation registers. *)
Definition addressing (s : chip_state_t) : Z * Z * Z * Z * Z * Z * Z :=
  (column_start s, column_end s, row_start s, row_end s,
   active_column s, active_row s, scanning_direction s).

(** The byte offset the pixel writer computes when the cursor stands on the
    [k]-th position of the window in scan order. *)
Definition cell_offset (s : chip_state_t) (k : Z) : Z :=
  pix_offset (set_cursor (fst (raster_position s k)) (snd (raster_position s k)) s).

(** The mode the chip is in after a sequence of events that starts in mode
    [m]: the level of the last transition reported on the mode line. *)
Definition mode_after (events : list event) (m : chip_mode_t) : chip_mode_t :=
  fold_left
    (fun m e =>
       match e with
       | PinChange _ _ DC value => mode_of_level value
       | _ => m
       end) events m.

(** The pin transitions on which [chip_pin_change] calls [spi_stop]. *)
Definition flushes (cs : level) (pin : pin_t) (value : level) (s : chip_state_t) : bool :=
  match pin, value with
  | CS, HIGH => true
  | DC, _ => negb (mode_eqb (mode s) (mode_of_level value)) && level_eqb cs LOW
  | RST, LOW => true
  | _, _ => false
  end.

(** Every output of a successful run of [m] satisfies [P]. *)
Definition emits_only (P : output -> Prop) (m : M unit) : Prop :=
  forall s s' o, m s = Some (tt, s', o) -> Forall P o.

Definition is_pixel_write (out : output) : Prop :=
  exists offset color, out = BufferWrite offset color.

(** The window and cursor registers hold 16-bit values, as the arguments
    of the address-set commands do. *)
Definition registers_16bit (s : chip_state_t) : Prop :=
  is_u16 (column_start s) /\ is_u16 (column_end s)
  /\ is_u16 (row_start s) /\ is_u16 (row_end s)
  /\ is_u16 (active_column s) /\ is_u16 (active_row s).

(** [I] holds again whenever [m] runs to completion from a state with [I]. *)
Definition keeps (I : chip_state_t -> Prop) (m : M unit) : Prop :=
  forall s s' o, I s -> m s = Some (tt, s', o) -> I s'.

(** Memory-Access-Control with its argument 0xa3 received. *)
Definition madctl_chip : chip_state_t :=
  mk_chip 128 160 MODE_DATA CMD_MADCTL 1 1 (0xa3 :: replicate 15 0)
    false 0 0 127 0 0 35 0.

(** [m] runs to completion from every state satisfying [I] and re-establishes [I]. *)
Definition preserves (I : chip_state_t -> Prop) (m : M unit) : Prop :=
  forall s, I s -> exists s' o, m s = Some (tt, s', o) /\ I s'.

(** * Properties *)

(** ** Running monadic code *)

Ltac run_monad :=
  cbv [bind get modify emit ret when exec outputs]; simpl.

Lemma bind_assoc {A B C} (m : M A) (k : A -> M B) (h : B -> M C) (s : chip_state_t) :
  bind (bind m k) h s = bind m (fun a => bind (k a) h) s.
Proof.
  unfold bind. destruct (m s) as [[[a s1] o1]|]; [|reflexivity].
  destruct (k a s1) as [[[b s2] o2]|]; [|reflexivity].
  destruct (h b s2) as [[[c s3] o3]|]; [|reflexivity].
  now rewrite app_assoc.
Qed.

Lemma exec_bind {A B} (m : M A) (k : A -> M B) (s : chip_state_t) :
  exec (bind m k) s =
    match m s with Some (a, s1, _) => exec (k a) s1 | None => None end.
Proof.
  unfold exec, bind. destruct (m s) as [[[a s1] o1]|]; [|reflexivity].
  destruct (k a s1) as [[[b s2] o2]|]; reflexivity.
Qed.

Lemma for_each_app {A} (l1 l2 : list A) (body : A -> M unit) (s : chip_state_t) :
  for_each (l1 ++ l2) body s = (for_each l1 body ;;; for_each l2 body) s.
Proof.
  revert s; induction l1 as [|x l1 IH]; intros s; simpl.
  - unfold bind, ret; simpl. destruct (for_each l2 body s) as [[[[] s'] o]|]; reflexivity.
  - unfold bind in *. destruct (body x s) as [[[[] s1] o1]|]; [|reflexivity].
    rewrite IH.
    destruct (for_each l1 body s1) as [[[[] s2] o2]|]; [|reflexivity].
    destruct (for_each l2 body s2) as [[[[] s3] o3]|]; [|reflexivity].
    now rewrite app_assoc.
Qed.

(** *** A small program logic: invariants of code that cannot fail *)

Section Preserves.
Variable I : chip_state_t -> Prop.

Lemma preserves_ret : preserves I (ret tt).
Proof. intros s Hs. exists s, []. split; [reflexivity|assumption]. Qed.

Lemma preserves_emit (o : output) : preserves I (emit o).
Proof. intros s Hs. exists s, [o]. split; [reflexivity|assumption]. Qed.

Lemma preserves_modify (f : chip_state_t -> chip_state_t) :
  (forall s, I s -> I (f s)) -> preserves I (modify f).
Proof. intros Hf s Hs. exists (f s), []. split; [reflexivity|auto]. Qed.

Lemma preserves_seq (m k : M unit) :
  preserves I m -> preserves I k -> preserves I (m ;;; k).
Proof.
  intros Hm Hk s Hs.
  destruct (Hm s Hs) as (s1 & o1 & E1 & H1).
  destruct (Hk s1 H1) as (s2 & o2 & E2 & H2).
  exists s2, (o1 ++ o2). unfold bind. rewrite E1, E2. split; [reflexivity|assumption].
Qed.

Lemma preserves_get {A} (f : chip_state_t -> A) (k : A -> M unit) :
  (forall a, preserves I (k a)) -> preserves I (a <- get f ;; k a).
Proof.
  intros Hk s Hs. destruct (Hk (f s) s Hs) as (s' & o & E & H').
  exists s', o. unfold bind, get. rewrite E. split; [reflexivity|assumption].
Qed.

Lemma preserves_when (b : bool) (m : M unit) :
  preserves I m -> preserves I (when b m).
Proof. intros Hm. destruct b; [exact Hm|apply preserves_ret]. Qed.

Lemma preserves_if (b : bool) (m k : M unit) :
  preserves I m -> preserves I k -> preserves I (if b then m else k).
Proof. intros Hm Hk. destruct b; assumption. Qed.

Lemma preserves_for_each {A} (buffer : list A) (body : A -> M unit) :
  (forall x, preserves I (body x)) -> preserves I (for_each buffer body).
Proof.
  intros Hbody. induction buffer as [|x rest IH]; simpl.
  - apply preserves_ret.
  - apply preserves_seq; [apply Hbody|exact IH].
Qed.
End Preserves.

(** ** Machine integers *)

Lemma u32_small (z : Z) : 0 <= z < 2 ^ 32 -> u32 z = z.
Proof. intros H. unfold u32. apply Z.mod_small. assumption. Qed.

Lemma s32_small (z : Z) : - 2 ^ 31 <= z < 2 ^ 31 -> s32 z = z.
Proof. intros H. unfold s32. rewrite Z.mod_small; lia. Qed.

Lemma u32_s32 (z : Z) : u32 (s32 z) = u32 z.
Proof. unfold u32, s32. rewrite Zminus_mod_idemp_l. f_equal. lia. Qed.

Lemma s32_u32 (z : Z) : s32 (u32 z) = s32 z.
Proof. unfold u32, s32. rewrite Zplus_mod_idemp_l. reflexivity. Qed.

Lemma u32_add_l (a b : Z) : u32 (u32 a + b) = u32 (a + b).
Proof. unfold u32. apply Zplus_mod_idemp_l. Qed.

Lemma u32_add_r (a b : Z) : u32 (a + u32 b) = u32 (a + b).
Proof. unfold u32. apply Zplus_mod_idemp_r. Qed.

Lemma u32_sub_l (a b : Z) : u32 (u32 a - b) = u32 (a - b).
Proof. unfold u32. apply Zminus_mod_idemp_l. Qed.

Lemma u32_sub_r (a b : Z) : u32 (a - u32 b) = u32 (a - b).
Proof. unfold u32. apply Zminus_mod_idemp_r. Qed.

Lemma u32_mul_l (a b : Z) : u32 (u32 a * b) = u32 (a * b).
Proof. unfold u32. apply Zmult_mod_idemp_l. Qed.

Create Rewrite HintDb wrap.
#[local] Hint Rewrite u32_s32 s32_u32 u32_add_l u32_add_r u32_sub_l u32_sub_r
  u32_mul_l : wrap.

(** A high byte and a low byte combine without carries. *)
Lemma lor_shiftl_byte (hi lo : Z) :
  0 <= hi -> 0 <= lo < 2 ^ 8 -> Z.lor (Z.shiftl hi 8) lo = hi * 256 + lo.
Proof.
  intros Hhi Hlo.
  assert (Hdisj : Z.land (Z.shiftl hi 8) lo = 0).
  { apply Z.bits_inj'; intros n Hn. rewrite Z.land_spec, Z.bits_0.
    destruct (Z.ltb_spec n 8) as [Hlt|Hge].
    - rewrite Z.shiftl_spec_low by assumption. reflexivity.
    - replace (Z.testbit lo n) with false; [apply andb_false_r|].
      symmetry. destruct (Z.eq_dec lo 0) as [->|Hnz]; [apply Z.bits_0|].
      apply Z.bits_above_log2; [lia|].
      apply Z.log2_lt_pow2; [lia|].
      apply Z.lt_le_trans with (2 ^ 8); [lia|].
      apply Z.pow_le_mono_r; lia. }
  rewrite <- Z.lxor_lor by assumption.
  rewrite <- Z.add_nocarry_lxor by assumption.
  rewrite Z.shiftl_mul_pow2 by lia. reflexivity.
Qed.

(** Two argument bytes form a big-endian 16-bit value. *)
Lemma arg16_big_endian (hi lo : Z) :
  is_u8 hi -> is_u8 lo -> arg16 hi lo = hi * 256 + lo.
Proof.
  unfold is_u8, arg16, u16. intros Hhi Hlo.
  rewrite lor_shiftl_byte by lia. apply Z.mod_small. lia.
Qed.

Lemma check_from_sound (P : Z -> bool) (n : nat) :
  forall z, check_from P n z = true ->
  forall v, z <= v < z + Z.of_nat n -> P v = true.
Proof.
  induction n as [|k IH]; intros z Hc v Hv; [lia|].
  simpl in Hc. apply andb_prop in Hc as [Hz Hk].
  destruct (Z.eq_dec v z) as [->|Hne]; [assumption|].
  apply (IH (z + 1)); [assumption|lia].
Qed.

(** ** Commands *)

Lemma command_args_size_cases (b : Z) :
  command_args_size b = 0 \/ command_args_size b = 1 \/ command_args_size b = 4.
Proof.
  unfold command_args_size.
  destruct (b =? CMD_MADCTL); [tauto|].
  destruct ((b =? CMD_CASET) || (b =? CMD_RASET)); tauto.
Qed.

Lemma u8_command_args_size (b : Z) : u8 (command_args_size b) = command_args_size b.
Proof. destruct (command_args_size_cases b) as [-> | [-> | ->]]; reflexivity. Qed.

(** What [execute_command] leaves alone, whatever the command. *)
Lemma execute_command_frame (s : chip_state_t) :
  exists s' o,
    execute_command s = Some (tt, s', o)
    /\ width s' = width s /\ height s' = height s /\ mode s' = mode s
    /\ pending_command s' = pending_command s
    /\ (command_code s <> CMD_RAMWR -> ram_write s' = ram_write s)
    /\ (command_code s = CMD_RAMWR -> ram_write s' = true).
Proof.
  destruct s as [w h m cc cs ci cb rw ac c0 c1 ar r0 r1 sd].
  unfold execute_command, pending_command. run_monad.
  destruct (Z.eqb_spec cc CMD_RAMWR) as [->|Hne]; simpl.
  { eexists _, _. split; [reflexivity|]. repeat split; congruence. }
  assert (Hrw : cc = CMD_RAMWR -> rw = true) by (intros; contradiction).
  destruct (cc =? CMD_MADCTL); simpl.
  { eexists _, _. split; [reflexivity|]. repeat split; assumption. }
  destruct ((cc =? CMD_CASET) || (cc =? CMD_RASET)); simpl.
  - destruct (if scan_bit sd SCAN_MV then negb (cc =? CMD_RASET) else cc =? CMD_RASET);
      simpl; eexists _, _; (split; [reflexivity|]); repeat split; assumption.
  - eexists _, _. split; [reflexivity|]. repeat split; assumption.
Qed.

(** The two address-set commands, on the bytes found in [command_buf]. *)
Lemma execute_command_window (s : chip_state_t) :
  command_code s = CMD_CASET \/ command_code s = CMD_RASET ->
  execute_command s =
    Some (tt,
          let start := arg16 (command_buf s !!! 0%nat) (command_buf s !!! 1%nat) in
          let stop := arg16 (command_buf s !!! 2%nat) (command_buf s !!! 3%nat) in
          match swap_axes s, command_code s =? CMD_RASET with
          | true, true | false, false => with_column_window start stop s
          | true, false | false, true => with_row_window start stop s
          end, []).
Proof.
  intros Hcode.
  destruct s as [w h m cc cs ci cb rw ac c0 c1 ar r0 r1 sd]; simpl in *.
  unfold execute_command, swap_axes. run_monad.
  destruct Hcode as [-> | ->]; simpl; destruct (scan_bit sd SCAN_MV); reflexivity.
Qed.

Lemma process_command_byte_eq (b : Z) (s : chip_state_t) :
  process_command_byte b s =
    (if command_args_size b =? 0 then execute_command else ret tt) (start_command b s).
Proof.
  destruct s as [w h m cc cs ci cb rw ac c0 c1 ar r0 r1 sd].
  unfold process_command_byte, start_command. run_monad.
  rewrite u8_command_args_size.
  destruct (command_args_size b =? 0); simpl.
  - destruct (execute_command _) as [[[[] s'] o]|]; reflexivity.
  - reflexivity.
Qed.

Lemma process_command_byte_run (b : Z) (s : chip_state_t) :
  exists s' o,
    process_command_byte b s = Some (tt, s', o)
    /\ pending_command s' = (b, command_args_size b, 0, command_buf s)
    /\ width s' = width s /\ height s' = height s /\ mode s' = mode s
    /\ ram_write s' = ram_write s || (b =? CMD_RAMWR).
Proof.
  rewrite process_command_byte_eq.
  assert (Hst : pending_command (start_command b s)
                  = (b, command_args_size b, 0, command_buf s)
                /\ width (start_command b s) = width s
                /\ height (start_command b s) = height s
                /\ mode (start_command b s) = mode s
                /\ ram_write (start_command b s) = ram_write s
                /\ command_code (start_command b s) = b).
  { destruct s; repeat split. }
  destruct Hst as (Hp & Hw & Hh & Hm & Hr & Hc).
  destruct (Z.eqb_spec (command_args_size b) 0) as [Hz|Hnz].
  - destruct (execute_command_frame (start_command b s))
      as (s' & o & E & Hw' & Hh' & Hm' & Hp' & Hr' & Ht').
    exists s', o. rewrite E. repeat split; try congruence.
    destruct (Z.eqb_spec b CMD_RAMWR) as [->|Hne].
    + rewrite orb_true_r. apply Ht'. assumption.
    + rewrite orb_false_r. rewrite Hr' by congruence. assumption.
  - exists (start_command b s), []. repeat split; try assumption.
    destruct (Z.eqb_spec b CMD_RAMWR) as [->|Hne]; [exfalso; apply Hnz; reflexivity|].
    rewrite orb_false_r. assumption.
Qed.

Lemma process_command_eq (buffer : list Z) (s : chip_state_t) :
  process_command buffer s = for_each buffer process_command_byte (set_ram_write false s).
Proof.
  unfold process_command, bind, modify.
  destruct (for_each _ _ _) as [[[[] s'] o]|]; reflexivity.
Qed.

Lemma process_command_snoc (buffer : list Z) (b : Z) (s : chip_state_t) :
  process_command (buffer ++ [b]) s =
    (process_command buffer ;;; process_command_byte b) s.
Proof.
  unfold process_command. rewrite bind_assoc.
  unfold bind at 1 3. unfold modify at 1 2.
  rewrite for_each_app. simpl.
  assert (E : forall s1, (process_command_byte b ;;; ret tt) s1 = process_command_byte b s1).
  { intros s1. unfold bind, ret.
    destruct (process_command_byte b s1) as [[[[] s2] o2]|]; [|reflexivity].
    now rewrite app_nil_r. }
  unfold bind at 1 3.
  destruct (for_each buffer process_command_byte (set_ram_write false s)) as [[[[] s1] o1]|];
    [|reflexivity].
  rewrite E. reflexivity.
Qed.

(** A chunk of command bytes never fails; it keeps the mode, the surface
    size and the bytes of [command_buf], and raises the ram-write flag
    exactly when the chunk holds a Memory-Write. *)
Lemma process_command_run (buffer : list Z) (s : chip_state_t) :
  exists s' o,
    process_command buffer s = Some (tt, s', o)
    /\ width s' = width s /\ height s' = height s /\ mode s' = mode s
    /\ command_buf s' = command_buf s
    /\ ram_write s' = existsb (fun b => b =? CMD_RAMWR) buffer
    /\ (accumulator_ok s \/ buffer <> [] -> accumulator_ok s').
Proof.
  induction buffer as [|b pre IH] using rev_ind.
  - exists (set_ram_write false s), [].
    split; [reflexivity|]. do 5 (split; [destruct s; reflexivity|]).
    intros [H|H]; [destruct s; exact H|congruence].
  - destruct IH as (s1 & o1 & E1 & Hw1 & Hh1 & Hm1 & Hb1 & Hr1 & _).
    destruct (process_command_byte_run b s1) as (s2 & o2 & E2 & Hp2 & Hw2 & Hh2 & Hm2 & Hr2).
    exists s2, (o1 ++ o2). rewrite process_command_snoc. unfold bind. rewrite E1, E2.
    unfold pending_command in Hp2. injection Hp2 as Hc Hs Hi Hb.
    split; [reflexivity|]. do 4 (split; [congruence|]). split.
    + rewrite Hr2, Hr1, existsb_app. simpl. now rewrite orb_false_r.
    + intros _. unfold accumulator_ok. rewrite Hi, Hs.
      destruct (command_args_size_cases b) as [-> | [-> | ->]]; lia.
Qed.

(** ** Command arguments *)

Lemma store_command_buf_defined (i v : Z) (s : chip_state_t) :
  store_command_buf i v s <> None <-> 0 <= i < 16.
Proof.
  unfold store_command_buf, modify, undefined_behaviour.
  destruct (Z.leb_spec 0 i), (Z.ltb_spec i 16); simpl; split; intros Hd;
    try lia; congruence.
Qed.

Lemma process_command_args_byte_idle (b : Z) (s : chip_state_t) :
  command_size s <= command_index s ->
  process_command_args_byte b s = Some (tt, s, []).
Proof.
  intros H. unfold process_command_args_byte. run_monad.
  destruct (Z.ltb_spec (command_index s) (command_size s)); [lia|reflexivity].
Qed.

Lemma process_command_args_idle (buffer : list Z) (s : chip_state_t) :
  command_size s <= command_index s ->
  process_command_args buffer s = Some (tt, s, []).
Proof.
  intros H. unfold process_command_args.
  induction buffer as [|b rest IH]; simpl; [reflexivity|].
  unfold bind. rewrite process_command_args_byte_idle by assumption.
  rewrite IH. reflexivity.
Qed.

(** One argument byte while the accumulation is in progress: the byte is
    stored at [command_index], the index moves on, and the command executes
    when the last argument has arrived. *)
Lemma process_command_args_byte_store (b : Z) (s : chip_state_t) :
  0 <= command_index s < command_size s -> command_size s <= 16 ->
  process_command_args_byte b s =
    (if command_size s =? command_index s + 1 then execute_command else ret tt)
      (set_command_index (command_index s + 1)
         (set_command_buf (<[Z.to_nat (command_index s) := b]> (command_buf s)) s)).
Proof.
  intros Hi Hs.
  destruct s as [w h m cc cs ci cb rw ac c0 c1 ar r0 r1 sd]; simpl in *.
  unfold process_command_args_byte, store_command_buf. run_monad.
  destruct (Z.ltb_spec ci cs); [|lia].
  destruct (Z.leb_spec 0 ci); [|lia].
  destruct (Z.ltb_spec ci 16); [|lia]. simpl.
  replace (u8 (ci + 1)) with (ci + 1) by (unfold u8; rewrite Z.mod_small; lia).
  destruct (cs =? ci + 1); simpl.
  - destruct (execute_command _) as [[[[] s'] o]|]; reflexivity.
  - reflexivity.
Qed.

Lemma process_command_args_byte_ok (b : Z) (s : chip_state_t) :
  accumulator_ok s ->
  exists s' o,
    process_command_args_byte b s = Some (tt, s', o)
    /\ accumulator_ok s'
    /\ width s' = width s /\ height s' = height s /\ mode s' = mode s
    /\ command_code s' = command_code s /\ command_size s' = command_size s
    /\ length (command_buf s') = length (command_buf s)
    /\ (command_code s <> CMD_RAMWR -> ram_write s' = ram_write s).
Proof.
  intros [Hi Hs].
  destruct (Z.le_gt_cases (command_size s) (command_index s)) as [Hdone|Hmore].
  - exists s, []. rewrite process_command_args_byte_idle by assumption.
    repeat split; try assumption; lia.
  - rewrite process_command_args_byte_store by lia.
    set (s1 := set_command_index _ _).
    assert (H1 : command_index s1 = command_index s + 1
                 /\ command_size s1 = command_size s
                 /\ command_code s1 = command_code s
                 /\ width s1 = width s /\ height s1 = height s /\ mode s1 = mode s
                 /\ ram_write s1 = ram_write s
                 /\ length (command_buf s1) = length (command_buf s)).
    { subst s1. destruct s; simpl. rewrite length_insert. repeat split. }
    destruct H1 as (Hi1 & Hs1 & Hc1 & Hw1 & Hh1 & Hm1 & Hr1 & Hl1).
    destruct (command_size s =? command_index s + 1).
    + destruct (execute_command_frame s1) as (s' & o & E & Hw & Hh & Hm & Hp & Hr & _).
      exists s', o. rewrite E. unfold pending_command in Hp.
      injection Hp as Hpc Hps Hpi Hpb.
      unfold accumulator_ok. repeat split; try congruence; try lia.
      intros Hne. rewrite Hr by congruence. assumption.
    + exists s1, []. unfold accumulator_ok, ret. repeat split; try congruence; lia.
Qed.

(** ** Pixel writer *)

Lemma succ_mod_area (k a : Z) :
  0 <= k < a -> (k + 1) mod a = if k + 1 =? a then 0 else k + 1.
Proof.
  intros H. destruct (Z.eqb_spec (k + 1) a) as [->|Hne].
  - apply Z_mod_same_full.
  - apply Z.mod_small. lia.
Qed.

Lemma set_cursor_fields (col row : Z) (s : chip_state_t) :
  width (set_cursor col row s) = width s
  /\ height (set_cursor col row s) = height s
  /\ mode (set_cursor col row s) = mode s
  /\ pending_command (set_cursor col row s) = pending_command s
  /\ ram_write (set_cursor col row s) = ram_write s
  /\ column_start (set_cursor col row s) = column_start s
  /\ column_end (set_cursor col row s) = column_end s
  /\ row_start (set_cursor col row s) = row_start s
  /\ row_end (set_cursor col row s) = row_end s
  /\ scanning_direction (set_cursor col row s) = scanning_direction s
  /\ active_column (set_cursor col row s) = col
  /\ active_row (set_cursor col row s) = row.
Proof. destruct s; repeat split. Qed.

Lemma same_but_cursor_refl (s : chip_state_t) : same_but_cursor s s.
Proof. destruct s; reflexivity. Qed.

Lemma same_but_cursor_trans (s1 s2 s3 : chip_state_t) :
  same_but_cursor s1 s2 -> same_but_cursor s2 s3 -> same_but_cursor s1 s3.
Proof.
  unfold same_but_cursor. intros H12 H23. rewrite H23 at 1. rewrite H12.
  destruct s1; reflexivity.
Qed.

Lemma same_but_cursor_set (col row : Z) (s : chip_state_t) :
  same_but_cursor s (set_cursor col row s).
Proof. destruct s; reflexivity. Qed.

(** The facts about [s'] that follow from [same_but_cursor s s']. *)
Lemma same_but_cursor_fields (s s' : chip_state_t) :
  same_but_cursor s s' ->
  width s' = width s /\ height s' = height s /\ mode s' = mode s
  /\ pending_command s' = pending_command s /\ ram_write s' = ram_write s
  /\ column_start s' = column_start s /\ column_end s' = column_end s
  /\ row_start s' = row_start s /\ row_end s' = row_end s
  /\ scanning_direction s' = scanning_direction s.
Proof.
  intros H. rewrite H.
  pose proof (set_cursor_fields (active_column s') (active_row s') s) as F.
  tauto.
Qed.

Lemma same_but_cursor_window (s s' : chip_state_t) :
  same_but_cursor s s' ->
  window_area s' = window_area s /\ swap_axes s' = swap_axes s
  /\ (window_typed s -> window_typed s')
  /\ (window_on_surface s -> window_on_surface s').
Proof.
  intros H. apply same_but_cursor_fields in H.
  destruct H as (Hw & Hh & _ & _ & _ & Hc0 & Hc1 & Hr0 & Hr1 & Hsd).
  unfold window_area, window_width, window_height, swap_axes, window_typed,
    window_on_surface.
  rewrite Hw, Hh, Hc0, Hc1, Hr0, Hr1, Hsd. tauto.
Qed.

Lemma advance_cursor_frame (s : chip_state_t) :
  exists col row, advance_cursor s = Some (tt, set_cursor col row s, []).
Proof.
  destruct s as [w h m cc cs ci cb rw ac c0 c1 ar r0 r1 sd].
  unfold advance_cursor, set_cursor. run_monad.
  destruct (scan_bit sd SCAN_MV); simpl.
  - destruct (u32 (ar + 1) >? r1); simpl; [destruct (u32 (ac + 1) >? c1); simpl|];
      eexists _, _; reflexivity.
  - destruct (u32 (ac + 1) >? c1); simpl; [destruct (u32 (ar + 1) >? r1); simpl|];
      eexists _, _; reflexivity.
Qed.

(** One advancement inside a window: the cursor stays in the window and
    moves to the next position in scan order, wrapping after the last. *)
Lemma advance_cursor_step (s : chip_state_t) :
  window_typed s -> cursor_in_window s ->
  exists col row,
    advance_cursor s = Some (tt, set_cursor col row s, [])
    /\ cursor_in_window (set_cursor col row s)
    /\ raster_index (set_cursor col row s) = (raster_index s + 1) mod window_area s.
Proof.
  intros (Hc0 & Hc1 & Hr0 & Hr1) ((Hca & Hcb) & (Hra & Hrb)).
  destruct s as [w h m cc cs ci cb rw ac c0 c1 ar r0 r1 sd]; simpl in *.
  unfold advance_cursor, cursor_in_window, raster_index, window_area, window_width,
    window_height, swap_axes, set_cursor. run_monad.
  destruct (scan_bit sd SCAN_MV); simpl;
    rewrite ?Z.gtb_ltb, ?(u32_small (ar + 1)), ?(u32_small (ac + 1)) by lia.
  - destruct (Z.ltb_spec r1 (ar + 1)); simpl;
      rewrite ?Z.gtb_ltb, ?(u32_small (ar + 1)), ?(u32_small (ac + 1)) by lia;
      [destruct (Z.ltb_spec c1 (ac + 1)); simpl|];
      [exists c0, r0 | exists (ac + 1), r0 | exists ac, (ar + 1)];
      (split; [reflexivity|]); (split; [lia|]);
      rewrite succ_mod_area by nia;
      destruct (Z.eqb_spec ((ac - c0) * (r1 - r0 + 1) + (ar - r0) + 1)
                  ((c1 - c0 + 1) * (r1 - r0 + 1))); nia.
  - destruct (Z.ltb_spec c1 (ac + 1)); simpl;
      rewrite ?Z.gtb_ltb, ?(u32_small (ar + 1)), ?(u32_small (ac + 1)) by lia;
      [destruct (Z.ltb_spec r1 (ar + 1)); simpl|];
      [exists c0, r0 | exists c0, (ar + 1) | exists (ac + 1), ar];
      (split; [reflexivity|]); (split; [lia|]);
      rewrite succ_mod_area by nia;
      destruct (Z.eqb_spec ((ar - r0) * (c1 - c0 + 1) + (ac - c0) + 1)
                  ((c1 - c0 + 1) * (r1 - r0 + 1))); nia.
Qed.

Lemma raster_index_range (s : chip_state_t) :
  cursor_in_window s -> 0 <= raster_index s < window_area s.
Proof.
  intros ((Hca & Hcb) & (Hra & Hrb)).
  unfold raster_index, window_area, window_width, window_height.
  destruct (swap_axes s); nia.
Qed.

(** The cursor is the position its raster index names. *)
Lemma raster_position_index (s : chip_state_t) :
  cursor_in_window s ->
  raster_position s (raster_index s) = (active_column s, active_row s).
Proof.
  intros ((Hca & Hcb) & (Hra & Hrb)).
  assert (Hdm : forall a c n, 0 <= c < n ->
                 (a * n + c) mod n = c /\ (a * n + c) / n = a).
  { intros a c n Hc. split.
    - rewrite Z.add_comm, Z_mod_plus_full. apply Z.mod_small. assumption.
    - rewrite Z.div_add_l, Z.div_small by lia. lia. }
  unfold raster_position, raster_index, window_width, window_height.
  destruct (swap_axes s).
  - destruct (Hdm (active_column s - column_start s) (active_row s - row_start s)
                (row_end s - row_start s + 1)) as [-> ->]; [lia|]. f_equal; lia.
  - destruct (Hdm (active_row s - row_start s) (active_column s - column_start s)
                (column_end s - column_start s + 1)) as [-> ->]; [lia|]. f_equal; lia.
Qed.

Lemma process_data_sample_eq (sample : Z) (s : chip_state_t) :
  process_data_sample sample s =
    match advance_cursor s with
    | Some (_, s', o) =>
        Some (tt, s', BufferWrite (pix_offset s) (rgb565_to_rgba sample) :: o)
    | None => None
    end.
Proof.
  unfold process_data_sample, bind, get, emit.
  destruct (advance_cursor s) as [[[[] s'] o]|]; reflexivity.
Qed.

(** Pixel data never fails and touches nothing but the cursor. *)
Lemma process_data_frame (samples : list Z) (s : chip_state_t) :
  exists s' o, process_data samples s = Some (tt, s', o) /\ same_but_cursor s s'.
Proof.
  unfold process_data. revert s.
  induction samples as [|v rest IH]; intros s; simpl.
  - exists s, []. split; [reflexivity|apply same_but_cursor_refl].
  - unfold bind. rewrite process_data_sample_eq.
    destruct (advance_cursor_frame s) as (col & row & E). rewrite E.
    destruct (IH (set_cursor col row s)) as (s' & o & E' & F). rewrite E'.
    eexists _, _. split; [reflexivity|].
    eapply same_but_cursor_trans; [apply same_but_cursor_set|exact F].
Qed.

(** Streaming samples through a window: one write per sample, each issued
    with the cursor inside the window, and the raster index advances by the
    number of samples modulo the area. *)
Lemma process_data_run (samples : list Z) :
  forall s, window_typed s -> cursor_in_window s ->
  exists s' o,
    process_data samples s = Some (tt, s', o)
    /\ same_but_cursor s s' /\ cursor_in_window s'
    /\ raster_index s' = (raster_index s + Z.of_nat (length samples)) mod window_area s
    /\ length o = length samples
    /\ Forall (write_from_window s) o.
Proof.
  unfold process_data.
  induction samples as [|v rest IH]; intros s Ht Hin; simpl for_each.
  - exists s, []. split; [reflexivity|]. split; [apply same_but_cursor_refl|].
    split; [assumption|]. split; [|split; [reflexivity|constructor]].
    simpl. rewrite Z.add_0_r. symmetry. apply Z.mod_small.
    apply raster_index_range. assumption.
  - destruct (advance_cursor_step s Ht Hin) as (col & row & E & Hin1 & Hidx1).
    pose proof (same_but_cursor_set col row s) as F1.
    destruct (same_but_cursor_window _ _ F1) as (Ha1 & _ & Ht1 & _).
    destruct (IH _ (Ht1 Ht) Hin1) as (s' & o & E' & F & Hin' & Hidx' & Hlen & Hall).
    unfold bind. rewrite process_data_sample_eq, E, E'.
    eexists _, _. split; [reflexivity|].
    split; [eapply same_but_cursor_trans; eassumption|].
    split; [assumption|]. split; [|split].
    + rewrite Hidx', Hidx1, Ha1, Zplus_mod_idemp_l. f_equal.
      rewrite length_cons. lia.
    + simpl. rewrite Hlen. reflexivity.
    + simpl. constructor.
      * exists s, v. split; [reflexivity|]. split; [apply same_but_cursor_refl|assumption].
      * eapply Forall_impl; [exact Hall|].
        intros out (t & v' & -> & Ft & Hint). exists t, v'.
        split; [reflexivity|]. split; [|assumption].
        eapply same_but_cursor_trans; eassumption.
Qed.

(** The code computes the coordinates and the offset of the specification
    modulo the word size. *)
Lemma pixel_x_modular (s : chip_state_t) : pixel_x s = s32 (sink_x s).
Proof.
  unfold pixel_x, sink_x, swap_axes, mirror_x, mirror_y.
  destruct (scan_bit (scanning_direction s) SCAN_MV),
    (scan_bit (scanning_direction s) SCAN_MX), (scan_bit (scanning_direction s) SCAN_MY);
    rewrite ?u32_s32; autorewrite with wrap; reflexivity.
Qed.

Lemma pixel_y_modular (s : chip_state_t) : pixel_y s = s32 (sink_y s).
Proof.
  unfold pixel_y, sink_y, swap_axes, mirror_x, mirror_y.
  destruct (scan_bit (scanning_direction s) SCAN_MV),
    (scan_bit (scanning_direction s) SCAN_MX), (scan_bit (scanning_direction s) SCAN_MY);
    rewrite ?u32_s32; autorewrite with wrap; reflexivity.
Qed.

Lemma pix_offset_modular (s : chip_state_t) :
  pix_offset s = u32 ((sink_y s * width s + sink_x s) * 4).
Proof.
  unfold pix_offset, pix_index. rewrite pixel_x_modular, pixel_y_modular.
  rewrite ?u32_s32. autorewrite with wrap.
  rewrite <- u32_mul_l, u32_add_l, u32_add_r, u32_mul_l. reflexivity.
Qed.

(** With the cursor on the surface the sink coordinates are on it too. *)
Lemma sink_on_surface (s : chip_state_t) :
  0 <= active_column s < width s -> 0 <= active_row s < height s ->
  0 <= sink_x s < width s /\ 0 <= sink_y s < height s.
Proof.
  intros Hc Hr. unfold sink_x, sink_y.
  destruct (swap_axes s), (mirror_x s), (mirror_y s); lia.
Qed.

(** ** Events *)

Lemma chip_spi_done_empty (cs : level) (s : chip_state_t) :
  chip_spi_done cs [] s = Some (tt, s, []).
Proof. reflexivity. Qed.

Section AccumulatorInvariants.
(** Invariants that speak about the parameter accumulator only. *)
Variable I : chip_state_t -> Prop.
Hypothesis I_accumulator :
  forall s s', pending_command s' = pending_command s -> I s -> I s'.

Lemma chip_reset_preserves : preserves I chip_reset.
Proof.
  unfold chip_reset.
  repeat apply preserves_seq; apply preserves_modify; intros s Hs;
    (eapply I_accumulator; [|exact Hs]); destruct s; reflexivity.
Qed.

Lemma process_data_preserves (samples : list Z) : preserves I (process_data samples).
Proof.
  intros s Hs. destruct (process_data_frame samples s) as (s' & o & E & F).
  exists s', o. split; [assumption|].
  apply same_but_cursor_fields in F. eapply I_accumulator; [|exact Hs]. tauto.
Qed.

Section PinChange.
(** A pin event, given what the flushed transfer does to the invariant. *)
Variable pending : list Z.
Hypothesis I_done : forall cs, preserves I (chip_spi_done cs pending).

Lemma spi_stop_preserves (cs : level) : preserves I (spi_stop cs pending).
Proof.
  unfold spi_stop. apply preserves_seq; [apply preserves_emit|apply I_done].
Qed.

Lemma chip_pin_change_preserves (cs : level) (pin : pin_t) (value : level) :
  preserves I (chip_pin_change cs pending pin value).
Proof.
  unfold chip_pin_change. apply preserves_seq.
  { destruct pin; try apply preserves_ret.
    apply preserves_if; [apply preserves_emit|apply spi_stop_preserves]. }
  apply preserves_get; intros m. apply preserves_seq.
  { destruct pin; try apply preserves_ret.
    apply preserves_when. apply preserves_seq.
    - apply preserves_when, spi_stop_preserves.
    - apply preserves_seq; [|apply preserves_when, preserves_emit].
      apply preserves_modify. intros s Hs.
      eapply I_accumulator; [|exact Hs]. destruct s; reflexivity. }
  destruct pin; try apply preserves_ret.
  apply preserves_when, preserves_seq;
    [apply spi_stop_preserves|apply chip_reset_preserves].
Qed.
End PinChange.

Hypothesis I_process_command : forall buffer, preserves I (process_command buffer).
Hypothesis I_process_command_args :
  forall buffer, preserves I (process_command_args buffer).

Lemma chip_spi_done_preserves (cs : level) (buffer : list Z) :
  preserves I (chip_spi_done cs buffer).
Proof.
  unfold chip_spi_done. destruct buffer as [|b rest]; [apply preserves_ret|].
  apply preserves_get; intros m. apply preserves_seq.
  - apply preserves_if; [|apply I_process_command].
    apply preserves_get; intros rw.
    apply preserves_if; [apply process_data_preserves|apply I_process_command_args].
  - apply preserves_when, preserves_emit.
Qed.

Lemma run_preserves (events : list event) : preserves I (run events).
Proof.
  unfold run. apply preserves_for_each. intros [cs buffer|cs pending pin value].
  - apply chip_spi_done_preserves.
  - apply chip_pin_change_preserves. intros cs'. apply chip_spi_done_preserves.
Qed.
End AccumulatorInvariants.

Lemma accumulator_ok_pending (s s' : chip_state_t) :
  pending_command s' = pending_command s -> accumulator_ok s -> accumulator_ok s'.
Proof.
  unfold pending_command, accumulator_ok. intros H.
  injection H as _ Hs Hi _. rewrite Hs, Hi. tauto.
Qed.

Lemma process_command_preserves_ok (buffer : list Z) :
  preserves accumulator_ok (process_command buffer).
Proof.
  intros s Hs. destruct (process_command_run buffer s) as (s' & o & E & H).
  exists s', o. split; [assumption|]. apply H. left. assumption.
Qed.

Lemma process_command_args_preserves_ok (buffer : list Z) :
  preserves accumulator_ok (process_command_args buffer).
Proof.
  unfold process_command_args. apply preserves_for_each. intros b s Hs.
  destruct (process_command_args_byte_ok b s Hs) as (s' & o & E & Hok & _).
  exists s', o. split; assumption.
Qed.

(** * Properties of the specification *)

(** ** Colour conversion *)

Lemma rgba_channels_ok_all (v : Z) : 0 <= v < 2 ^ 16 -> rgba_channels_ok v = true.
Proof.
  intros Hv.
  apply (check_from_sound rgba_channels_ok (Z.to_nat (2 ^ 16)) 0).
  - vm_compute. reflexivity.
  - rewrite Z2Nat.id by lia. lia.
Qed.

(** C1 (as amended).  For every 16-bit sample [v], [rgb565_to_rgba v] is a
    32-bit value whose alpha bits 24-31 are 0xFF, whose bits 16-23 hold the
    bottom 5 bits of [v] (blue) shifted to the top of the byte, whose bits
    8-15 hold the middle 6 bits (green) shifted to the top of the byte, and
    whose bits 0-7 hold the top 5 bits (red) shifted to the top of the byte;
    no rounding, the low bits of each channel are zero.  The boundary values
    0x0000, 0xF800, 0x07E0 and 0x001F give 0xFF000000, 0xFF0000F8,
    0xFF00FC00 and 0xFFF80000. *)
Theorem rgb565_to_rgba_channels (v : Z) :
  0 <= v < 2 ^ 16 ->
  let r := rgb565_to_rgba v in
  0 <= r < 2 ^ 32
  /\ Z.shiftr r 24 = 0xff
  /\ Z.land (Z.shiftr r 16) 0xff = Z.shiftl (Z.land v 0x1f) 3
  /\ Z.land (Z.shiftr r 8) 0xff = Z.shiftl (Z.land (Z.shiftr v 5) 0x3f) 2
  /\ Z.land r 0xff = Z.shiftl (Z.shiftr v 11) 3
  /\ rgb565_to_rgba 0x0000 = 0xff000000
  /\ rgb565_to_rgba 0xf800 = 0xff0000f8
  /\ rgb565_to_rgba 0x07e0 = 0xff00fc00
  /\ rgb565_to_rgba 0x001f = 0xfff80000.
Proof.
  intros Hv r. pose proof (rgba_channels_ok_all v Hv) as H.
  unfold rgba_channels_ok in H. fold r in H.
  repeat (apply andb_prop in H; destruct H as [H ?]).
  repeat split; try reflexivity; try (apply Z.eqb_eq; assumption); lia.
Qed.

Lemma rgb565_to_rgba_channels_witness :
  0 <= 0xffff < 2 ^ 16
  /\ 0 <= rgb565_to_rgba 0xffff < 2 ^ 32
  /\ Z.shiftr (rgb565_to_rgba 0xffff) 24 = 0xff
  /\ Z.land (Z.shiftr (rgb565_to_rgba 0xffff) 16) 0xff = Z.shiftl (Z.land 0xffff 0x1f) 3
  /\ Z.land (Z.shiftr (rgb565_to_rgba 0xffff) 8) 0xff
       = Z.shiftl (Z.land (Z.shiftr 0xffff 5) 0x3f) 2
  /\ Z.land (rgb565_to_rgba 0xffff) 0xff = Z.shiftl (Z.shiftr 0xffff 11) 3
  /\ rgb565_to_rgba 0x0000 = 0xff000000
  /\ rgb565_to_rgba 0xf800 = 0xff0000f8
  /\ rgb565_to_rgba 0x07e0 = 0xff00fc00
  /\ rgb565_to_rgba 0x001f = 0xfff80000.
Proof. split; [lia|]. apply (rgb565_to_rgba_channels 0xffff). lia. Defined.

(** C1, counterexample.  For the red-only sample 0xF800 the top 5 bits are
    all ones, yet bits 16-23 of the result are zero: red does not land in
    bits 16-23.  For the blue-only sample 0x001F bits 0-7 are zero: blue does
    not land in bits 0-7. *)
Lemma rgb565_red_not_in_bits_16_23 :
  Z.land (Z.shiftr (rgb565_to_rgba 0xf800) 16) 0xff
    <> Z.shiftl (Z.shiftr 0xf800 11) 3
  /\ Z.land (rgb565_to_rgba 0x001f) 0xff <> Z.shiftl (Z.land 0x001f 0x1f) 3.
Proof. split; vm_compute; discriminate. Qed.

(** ** Reset *)

(** C2 (as amended).  After [chip_reset] the ram-write flag is false, the
    cursor is at column 0, row 0, the column window is 0..127 whatever the
    surface width, and the row window is the partial range 0..35; all other
    fields keep their value. *)
Theorem chip_reset_defaults (s : chip_state_t) :
  chip_reset s =
    Some (tt,
          mk_chip (width s) (height s) (mode s) (command_code s)
            (command_size s) (command_index s) (command_buf s)
            false 0 0 127 0 0 35 (scanning_direction s),
          []).
Proof. destruct s; reflexivity. Qed.

(** C2, counterexample.  On a surface 240 pixels wide the column window after
    reset ends at 127, not at width - 1 = 239. *)
Lemma chip_reset_column_end_not_width :
  exists s',
    exec chip_reset
      (mk_chip 240 320 MODE_COMMAND 0 0 0 (replicate 16 0) false 0 0 0 0 0 0 0)
      = Some s'
    /\ column_end s' = 127 /\ column_end s' <> width s' - 1.
Proof. eexists. split; [reflexivity|]. split; [reflexivity|]. simpl. lia. Qed.

(** ** Pending command across pin events *)

Lemma chip_spi_done_command (cs : level) (b : Z) (rest : list Z) (s : chip_state_t) :
  mode s = MODE_COMMAND ->
  chip_spi_done cs (b :: rest) s =
    (process_command (b :: rest) ;;; when (level_eqb cs LOW) (emit SpiStart)) s.
Proof.
  intros Hm. unfold chip_spi_done. unfold bind at 1. unfold get. rewrite Hm. simpl.
  destruct ((process_command (b :: rest) ;;; when (level_eqb cs LOW) (emit SpiStart)) s)
    as [[[[] s'] o]|]; reflexivity.
Qed.

(** A command byte overwrites whatever accumulation was in progress. *)
Lemma process_command_forgets (b : Z) (rest : list Z) (c n i : Z) (s : chip_state_t) :
  process_command (b :: rest)
    (set_command_index i (set_command_size n (set_command_code c s)))
  = process_command (b :: rest) s.
Proof.
  rewrite !process_command_eq. simpl. unfold bind.
  rewrite !process_command_byte_eq.
  replace (start_command b
             (set_ram_write false
                (set_command_index i (set_command_size n (set_command_code c s)))))
    with (start_command b (set_ram_write false s)) by (destruct s; reflexivity).
  reflexivity.
Qed.

(** C3 (as amended).  A stop/restart of the transport (select line
    deasserted, then reasserted, no byte delivered) leaves the whole chip
    state unchanged; more generally every pin event that delivers no byte,
    a reset-line activation included, leaves the pending command code, the
    expected count, the received count and the received bytes unchanged.
    The accumulation is restarted by a command byte arriving in command
    mode: after a chunk of command bytes the pending command is the last
    byte of the chunk with no argument received, and the outcome (state and
    outputs) does not depend on the accumulation that was in progress. *)
Theorem accumulation_across_events (s : chip_state_t) (cs : level) (pin : pin_t)
    (value : level) (b : Z) (buffer : list Z) (c n i : Z) :
  run [PinChange LOW [] CS HIGH; PinChange HIGH [] CS LOW] s
    = Some (tt, s, [SpiStop; SpiStart])
  /\ (exists s' o,
        chip_pin_change cs [] pin value s = Some (tt, s', o)
        /\ pending_command s' = pending_command s)
  /\ (exists s' o,
        chip_spi_done cs (buffer ++ [b]) (set_mode MODE_COMMAND s) = Some (tt, s', o)
        /\ pending_command s' = (b, command_args_size b, 0, command_buf s))
  /\ chip_spi_done cs (b :: buffer)
       (set_mode MODE_COMMAND
          (set_command_index i (set_command_size n (set_command_code c s))))
     = chip_spi_done cs (b :: buffer) (set_mode MODE_COMMAND s).
Proof.
  split; [destruct s; reflexivity|]. split; [|split].
  - apply (chip_pin_change_preserves (fun t => pending_command t = pending_command s));
      try reflexivity.
    + intros t t' H Ht. congruence.
    + intros cs'. apply (preserves_ret _).
  - assert (Hm : mode (set_mode MODE_COMMAND s) = MODE_COMMAND) by (destruct s; reflexivity).
    destruct (buffer ++ [b]) as [|b0 rest] eqn:Hbuf;
      [destruct buffer; discriminate|].
    rewrite (chip_spi_done_command _ _ _ _ Hm), <- Hbuf.
    destruct (process_command_run buffer (set_mode MODE_COMMAND s))
      as (s1 & o1 & E1 & _ & _ & _ & Hb1 & _).
    destruct (process_command_byte_run b s1) as (s2 & o2 & E2 & Hp2 & _).
    unfold bind at 1. rewrite process_command_snoc.
    unfold bind at 1. rewrite E1, E2.
    destruct cs; simpl; eexists _, _; (split; [reflexivity|]);
      rewrite Hp2, Hb1; destruct s; reflexivity.
  - assert (Hm : forall t, mode (set_mode MODE_COMMAND t) = MODE_COMMAND)
      by (intros t; destruct t; reflexivity).
    rewrite !chip_spi_done_command by apply Hm.
    unfold bind.
    replace (set_mode MODE_COMMAND
               (set_command_index i (set_command_size n (set_command_code c s))))
      with (set_command_index i
              (set_command_size n (set_command_code c (set_mode MODE_COMMAND s))))
      by (destruct s; reflexivity).
    rewrite process_command_forgets. reflexivity.
Qed.

(** C3, counterexample.  With a Column-Address-Set half received (two of
    four arguments), a reset-line activation leaves the accumulation as it
    was: it is still in progress afterwards, and two further argument bytes
    complete and execute the interrupted command. *)
Lemma reset_keeps_accumulation :
  exists s1 s2,
    exec (chip_pin_change LOW [] RST LOW) half_received_caset = Some s1
    /\ pending_command s1 = pending_command half_received_caset
    /\ command_index s1 <> 0
    /\ exec (chip_spi_done LOW [0; 20]) s1 = Some s2
    /\ (column_start s2, column_end s2) = (10, 20).
Proof. eexists _, _. repeat split. discriminate. Qed.

(** ** A command split across chunks *)

Lemma exec_run_app (e1 e2 : list event) (s : chip_state_t) :
  exec (run (e1 ++ e2)) s =
    match exec (run e1) s with
    | Some s1 => exec (run e2) s1
    | None => None
    end.
Proof.
  transitivity (exec (run e1 ;;; run e2) s).
  - unfold exec, run. rewrite for_each_app. reflexivity.
  - rewrite exec_bind. unfold exec.
    destruct (run e1 s) as [[[[] s1] o1]|]; reflexivity.
Qed.

(** Latching an address-set opcode in command mode and raising the mode line. *)
Lemma opcode_then_data_mode (s : chip_state_t) (cs : level) (op : Z) :
  op = CMD_CASET \/ op = CMD_RASET ->
  exec (run [PinChange cs [] DC LOW; SpiDone cs [op]; PinChange cs [] DC HIGH]) s
    = Some (set_mode MODE_DATA (start_command op (set_ram_write false s))).
Proof.
  intros [-> | ->]; destruct s as [w h m cc sz ci cb rw ac c0 c1 ar r0 r1 sd];
    destruct cs, m; reflexivity.
Qed.

Lemma process_command_args_collecting (buffer : list Z) :
  preserves collecting (process_command_args buffer).
Proof.
  unfold process_command_args. apply preserves_for_each.
  intros b s (Hm & Hr & Hc & Hok).
  destruct (process_command_args_byte_ok b s Hok)
    as (s' & o & E & Hok' & _ & _ & Hm' & Hc' & _ & _ & Hr').
  exists s', o. split; [assumption|]. unfold collecting.
  rewrite Hm', Hc', Hr' by assumption. tauto.
Qed.

Lemma exec_process_command_args_app (c1 c2 : list Z) (s : chip_state_t) :
  exec (process_command_args (c1 ++ c2)) s =
    match process_command_args c1 s with
    | Some (_, s1, _) => exec (process_command_args c2) s1
    | None => None
    end.
Proof.
  transitivity (exec (process_command_args c1 ;;; process_command_args c2) s).
  - unfold exec, process_command_args. rewrite for_each_app. reflexivity.
  - apply exec_bind.
Qed.

(** While the accumulator collects in data mode, the chunk boundaries do
    not matter. *)
Lemma data_chunks_concat (cs : level) (chunks : list (list Z)) :
  forall s, collecting s ->
  exec (run (map (SpiDone cs) chunks)) s = exec (process_command_args (concat chunks)) s.
Proof.
  induction chunks as [|chunk rest IH]; intros s Hs; [reflexivity|].
  change (run (map (SpiDone cs) (chunk :: rest)))
    with (chip_spi_done cs chunk ;;; run (map (SpiDone cs) rest)).
  simpl concat. rewrite exec_bind, exec_process_command_args_app.
  destruct (process_command_args_collecting chunk s Hs) as (s1 & o1 & E1 & H1).
  rewrite E1, <- (IH s1 H1).
  destruct chunk as [|b chunk'];
    [injection E1 as <- _; reflexivity|].
  destruct Hs as (Hm & Hr & _).
  unfold chip_spi_done, bind, get. rewrite Hm. simpl. rewrite Hr, E1.
  destruct cs; reflexivity.
Qed.

Lemma four_arguments_execute (op a0 a1 a2 a3 : Z) (s : chip_state_t) :
  op = CMD_CASET \/ op = CMD_RASET ->
  length (command_buf s) = 16%nat ->
  exec (process_command_args [a0; a1; a2; a3])
       (set_mode MODE_DATA (start_command op (set_ram_write false s)))
    = Some (after_address_set op a0 a1 a2 a3 s).
Proof.
  intros Hop Hlen.
  destruct s as [w h m cc sz ci cb rw ac c0 c1 ar r0 r1 sd]; simpl in Hlen.
  destruct cb as [|b0 [|b1 [|b2 [|b3 cb']]]]; try discriminate Hlen.
  destruct Hop as [-> | ->]; cbv -[scan_bit arg16];
    destruct (scan_bit sd 32); reflexivity.
Qed.

(** C4 (as amended).  For Column-Address-Set and Row-Address-Set and every
    starting state: when the opcode byte is delivered as a chunk in command
    mode and the 4 argument bytes follow in data mode, the final state is
    the same however the 4 argument bytes are divided into chunks (one chunk
    of four, four chunks of one, empty chunks in between, ...): it is the
    state in which the command has executed on those arguments, with the
    ram-write flag inactive. *)
Theorem split_command_any_chunking (s : chip_state_t) (cs : level)
    (op a0 a1 a2 a3 : Z) (chunks : list (list Z)) :
  op = CMD_CASET \/ op = CMD_RASET ->
  length (command_buf s) = 16%nat ->
  concat chunks = [a0; a1; a2; a3] ->
  exec (run ([PinChange cs [] DC LOW; SpiDone cs [op]; PinChange cs [] DC HIGH]
             ++ map (SpiDone cs) chunks)) s
    = Some (after_address_set op a0 a1 a2 a3 s).
Proof.
  intros Hop Hlen Hchunks.
  rewrite exec_run_app, (opcode_then_data_mode s cs op Hop).
  rewrite data_chunks_concat, Hchunks.
  - apply four_arguments_execute; assumption.
  - destruct s; destruct Hop as [-> | ->]; unfold collecting, accumulator_ok; simpl;
      repeat split; try discriminate; lia.
Qed.

Lemma split_command_any_chunking_witness :
  (CMD_CASET = CMD_CASET \/ CMD_CASET = CMD_RASET)
  /\ length (command_buf reset_chip) = 16%nat
  /\ concat [[0; 10]; []; [0]; [20]] = [0; 10; 0; 20]
  /\ exec (run ([PinChange LOW [] DC LOW; SpiDone LOW [CMD_CASET];
                 PinChange LOW [] DC HIGH]
                ++ map (SpiDone LOW) [[0; 10]; []; [0]; [20]])) reset_chip
     = Some (after_address_set CMD_CASET 0 10 0 20 reset_chip).
Proof.
  split; [left; reflexivity|]. split; [reflexivity|]. split; [reflexivity|].
  apply split_command_any_chunking; [left; reflexivity | reflexivity | reflexivity].
Defined.

(** C4, counterexample.  From the reset state, Column-Address-Set(10, 20)
    delivered as opcode chunk plus argument chunk sets the column window to
    10..20.  The same 5 bytes in one chunk leave the window at 0..127,
    whether the chunk arrives in command mode (every byte is then taken as a
    command code) or in data mode (no command is pending, the bytes are
    dropped). *)
Lemma one_chunk_is_not_split :
  option_map registers (exec (run split_delivery) reset_chip)
    = Some (10, 20, 0, 35, 10, 0, 0, false)
  /\ option_map registers (exec (run split_delivery) reset_chip)
       <> option_map registers (exec (run one_chunk_in_command_mode) reset_chip)
  /\ option_map registers (exec (run split_delivery) reset_chip)
       <> option_map registers (exec (run one_chunk_in_data_mode) reset_chip).
Proof. repeat split; vm_compute; discriminate. Qed.

(** ** Address-set commands *)

(** C5.  Executing Column-Address-Set or Row-Address-Set on the four
    argument bytes [b0 b1 b2 b3] (start = b0 b1 and end = b2 b3, big-endian)
    updates exactly one axis: with swap-axes set, Row-Address-Set updates
    the column axis and Column-Address-Set the row axis; with swap-axes
    clear each command updates its own axis.  On that axis the cursor
    becomes start and the bounds become start and end; nothing else
    changes and nothing is output.  The axis is chosen by the flag in the
    state the command executes in, so a change of the flag between two
    address-set commands takes effect at once. *)
Theorem address_set_updates_one_axis (s : chip_state_t) (b0 b1 b2 b3 : Z)
    (rest : list Z) :
  is_u8 b0 -> is_u8 b1 -> is_u8 b2 -> is_u8 b3 ->
  command_code s = CMD_CASET \/ command_code s = CMD_RASET ->
  command_buf s = b0 :: b1 :: b2 :: b3 :: rest ->
  let start := b0 * 256 + b1 in
  let stop := b2 * 256 + b3 in
  execute_command s =
    Some (tt,
          match swap_axes s, command_code s =? CMD_RASET with
          | true, true | false, false => with_column_window start stop s
          | true, false | false, true => with_row_window start stop s
          end, []).
Proof.
  intros H0 H1 H2 H3 Hcode Hbuf start stop.
  rewrite (execute_command_window s Hcode), Hbuf. simpl.
  rewrite !arg16_big_endian by assumption. reflexivity.
Qed.

Lemma address_set_updates_one_axis_witness :
  is_u8 0 /\ is_u8 5 /\ is_u8 1 /\ is_u8 2
  /\ (command_code swapped_raset_chip = CMD_CASET
      \/ command_code swapped_raset_chip = CMD_RASET)
  /\ command_buf swapped_raset_chip = 0 :: 5 :: 1 :: 2 :: replicate 12 0
  /\ execute_command swapped_raset_chip =
       Some (tt,
             mk_chip 128 160 MODE_DATA CMD_RASET 4 4 (0 :: 5 :: 1 :: 2 :: replicate 12 0)
               false 5 5 258 9 0 35 SCAN_MV, []).
Proof.
  unfold is_u8.
  split; [lia|]. split; [lia|]. split; [lia|]. split; [lia|].
  split; [right; reflexivity|]. split; [reflexivity|].
  apply (address_set_updates_one_axis swapped_raset_chip 0 5 1 2 (replicate 12 0));
    unfold is_u8; try lia; [right; reflexivity | reflexivity].
Defined.

(** The axis follows the flag of the moment: Column-Address-Set(1, 2),
    then Memory-Access-Control with swap-axes, then Column-Address-Set(3, 4)
    sets columns 1..2 first and rows 3..4 afterwards. *)
Example caset_after_swap_sets_rows :
  option_map registers
    (exec (run [PinChange HIGH [] CS LOW;
                SpiDone LOW [0x2a]; PinChange LOW [] DC HIGH; SpiDone LOW [0; 1; 0; 2];
                PinChange LOW [] DC LOW;
                SpiDone LOW [0x36]; PinChange LOW [] DC HIGH; SpiDone LOW [0x20];
                PinChange LOW [] DC LOW;
                SpiDone LOW [0x2a]; PinChange LOW [] DC HIGH; SpiDone LOW [0; 3; 0; 4]])
       reset_chip)
  = Some (1, 2, 3, 4, 1, 3, 0x20, false).
Proof. reflexivity. Qed.

(** ** Cursor advancement *)

Lemma same_but_cursor_raster (s s' : chip_state_t) (k : Z) :
  same_but_cursor s s' -> raster_position s' k = raster_position s k.
Proof.
  intros H. apply same_but_cursor_fields in H.
  destruct H as (_ & _ & _ & _ & _ & Hc0 & Hc1 & Hr0 & Hr1 & Hsd).
  unfold raster_position, window_width, window_height, swap_axes.
  rewrite Hc0, Hc1, Hr0, Hr1, Hsd. reflexivity.
Qed.

(** C6 (as amended).  For every state whose cursor lies within the window
    (so start <= end on both axes) and every list of N samples,
    [process_data] runs to completion, changes nothing but the cursor, keeps
    the cursor within the window, and leaves it at raster position
    (k + N) mod A of the window, where k is the raster position of the
    cursor before the samples and A the area of the window; the fast axis is
    the row when swap-axes is set and the column when it is clear.  When the
    cursor starts at the window start (k = 0), this is position N mod A.
    N is arbitrary, so the fill wraps as often as samples are supplied. *)
Theorem cursor_follows_raster (s : chip_state_t) (samples : list Z) :
  window_typed s -> cursor_in_window s ->
  exists s' o,
    process_data samples s = Some (tt, s', o)
    /\ same_but_cursor s s'
    /\ cursor_in_window s'
    /\ (active_column s', active_row s')
         = raster_position s
             ((raster_index s + Z.of_nat (length samples)) mod window_area s)
    /\ (active_column s = column_start s -> active_row s = row_start s ->
        (active_column s', active_row s')
          = raster_position s (Z.of_nat (length samples) mod window_area s)).
Proof.
  intros Ht Hin.
  destruct (process_data_run samples s Ht Hin) as (s' & o & E & F & Hin' & Hidx & _).
  exists s', o. split; [assumption|]. split; [assumption|]. split; [assumption|].
  assert (Hpos : (active_column s', active_row s')
                 = raster_position s
                     ((raster_index s + Z.of_nat (length samples)) mod window_area s)).
  { rewrite <- Hidx, <- (same_but_cursor_raster s s' _ F).
    symmetry. apply raster_position_index. assumption. }
  split; [assumption|].
  intros Hc Hr. rewrite Hpos. do 2 f_equal.
  unfold raster_index. rewrite Hc, Hr. destruct (swap_axes s); lia.
Qed.

Lemma cursor_follows_raster_witness :
  window_typed (small_window_chip SCAN_MV)
  /\ cursor_in_window (small_window_chip SCAN_MV)
  /\ exists s' o,
       process_data [0; 0; 0] (small_window_chip SCAN_MV) = Some (tt, s', o)
       /\ same_but_cursor (small_window_chip SCAN_MV) s'
       /\ cursor_in_window s'
       /\ (active_column s', active_row s')
            = raster_position (small_window_chip SCAN_MV)
                ((raster_index (small_window_chip SCAN_MV)
                  + Z.of_nat (length [0; 0; 0]))
                 mod window_area (small_window_chip SCAN_MV))
       /\ (active_column (small_window_chip SCAN_MV)
             = column_start (small_window_chip SCAN_MV) ->
           active_row (small_window_chip SCAN_MV)
             = row_start (small_window_chip SCAN_MV) ->
           (active_column s', active_row s')
             = raster_position (small_window_chip SCAN_MV)
                 (Z.of_nat (length [0; 0; 0])
                  mod window_area (small_window_chip SCAN_MV))).
Proof.
  assert (Ht : window_typed (small_window_chip SCAN_MV))
    by (unfold window_typed; simpl; lia).
  assert (Hin : cursor_in_window (small_window_chip SCAN_MV))
    by (unfold cursor_in_window; simpl; lia).
  split; [exact Ht|]. split; [exact Hin|].
  exact (cursor_follows_raster (small_window_chip SCAN_MV) [0; 0; 0] Ht Hin).
Defined.

(** C6, counterexample.  Window columns 0..1, rows 0..1 (area 4), swap-axes
    clear, cursor at column 1, row 0, inside the window.  After N = 1 sample
    the cursor is at column 0, row 1, which is raster position 2; raster
    position N mod A = 1 is column 1, row 0. *)
Lemma cursor_mid_window_is_not_at_N_mod_A :
  cursor_in_window (small_window_chip 0)
  /\ exists s',
       exec (process_data [0]) (small_window_chip 0) = Some s'
       /\ (active_column s', active_row s') = (0, 1)
       /\ raster_position (small_window_chip 0)
            (Z.of_nat (length [0]) mod window_area (small_window_chip 0)) = (1, 0)
       /\ (active_column s', active_row s')
            <> raster_position (small_window_chip 0)
                 (Z.of_nat (length [0]) mod window_area (small_window_chip 0)).
Proof.
  split; [unfold cursor_in_window; simpl; lia|].
  eexists. split; [reflexivity|]. split; [reflexivity|]. split; [reflexivity|].
  vm_compute. discriminate.
Qed.

(** ** Sink coordinates and offsets *)

(** C7.  Let x and y be the sink coordinates of the specification:
    with swap-axes set, x = (mirror-X ? width-1-col : col) and
    y = (mirror-Y ? height-1-row : row); with swap-axes clear,
    x = (mirror-Y ? width-1-col : col) and y = (mirror-X ? height-1-row : row).
    For every cursor position and all eight flag combinations the code
    computes x and y as [int]s and hands the pixel sink the byte offset
    (y * width + x) * 4 as a [uint32_t], together with the converted sample;
    whenever x, y and the offset fit those types, the values are exactly
    x, y and (y * width + x) * 4. *)
Theorem pixel_written_at_sink_offset (s : chip_state_t) (sample : Z) :
  pixel_x s = s32 (sink_x s)
  /\ pixel_y s = s32 (sink_y s)
  /\ outputs (process_data [sample]) s
       = [BufferWrite (u32 ((sink_y s * width s + sink_x s) * 4))
            (rgb565_to_rgba sample)]
  /\ (- 2 ^ 31 <= sink_x s < 2 ^ 31 -> pixel_x s = sink_x s)
  /\ (- 2 ^ 31 <= sink_y s < 2 ^ 31 -> pixel_y s = sink_y s)
  /\ (0 <= (sink_y s * width s + sink_x s) * 4 < 2 ^ 32 ->
      outputs (process_data [sample]) s
        = [BufferWrite ((sink_y s * width s + sink_x s) * 4) (rgb565_to_rgba sample)]).
Proof.
  assert (Hout : outputs (process_data [sample]) s
                 = [BufferWrite (u32 ((sink_y s * width s + sink_x s) * 4))
                      (rgb565_to_rgba sample)]).
  { unfold outputs, process_data. simpl for_each. unfold bind.
    rewrite process_data_sample_eq.
    destruct (advance_cursor_frame s) as (col & row & ->). simpl.
    rewrite pix_offset_modular. reflexivity. }
  split; [apply pixel_x_modular|]. split; [apply pixel_y_modular|].
  split; [exact Hout|]. split; [|split].
  - intros Hx. rewrite pixel_x_modular. apply s32_small. assumption.
  - intros Hy. rewrite pixel_y_modular. apply s32_small. assumption.
  - intros Ho. rewrite Hout, u32_small by assumption. reflexivity.
Qed.

Lemma pixel_written_at_sink_offset_witness :
  pixel_x mirrored_chip = 124
  /\ pixel_y mirrored_chip = 5
  /\ outputs (process_data [0xf800]) mirrored_chip = [BufferWrite 3056 0xff0000f8].
Proof.
  destruct (pixel_written_at_sink_offset mirrored_chip 0xf800)
    as (_ & _ & _ & Hx & Hy & Ho).
  split; [apply Hx; vm_compute; split; [discriminate|reflexivity]|].
  split; [apply Hy; vm_compute; split; [discriminate|reflexivity]|].
  apply Ho. vm_compute. split; [discriminate|reflexivity].
Defined.

(** ** Command-mode chunks *)

(** C8.  For every chunk delivered in command mode and every starting
    state: the parameter count of a code is 1 for Memory-Access-Control, 4
    for Column- and Row-Address-Set and 0 for every other code; processing
    the chunk [buffer ++ [b]] is processing [buffer] and then latching [b]
    as a new command (code [b], count from the table, no argument received)
    and executing it at once when its count is 0; the ram-write flag after
    a chunk is set exactly when the chunk holds a Memory-Write, whatever it
    was before (it is cleared at the start); after the chunk the pending
    command is its last byte; and the outcome does not depend on the
    accumulation or the flag the chunk found. *)
Theorem process_command_starts_commands (s : chip_state_t) (buffer : list Z)
    (b c n i : Z) (rw : bool) :
  (command_args_size CMD_MADCTL = 1
   /\ command_args_size CMD_CASET = 4
   /\ command_args_size CMD_RASET = 4
   /\ forall code, code <> CMD_MADCTL -> code <> CMD_CASET -> code <> CMD_RASET ->
        command_args_size code = 0)
  /\ process_command (buffer ++ [b]) s
       = (process_command buffer ;;;
          fun s1 => (if command_args_size b =? 0 then execute_command else ret tt)
                      (start_command b s1)) s
  /\ (exists s' o,
        process_command buffer s = Some (tt, s', o)
        /\ ram_write s' = existsb (fun x => x =? CMD_RAMWR) buffer)
  /\ (exists s' o,
        process_command (buffer ++ [b]) s = Some (tt, s', o)
        /\ pending_command s' = (b, command_args_size b, 0, command_buf s))
  /\ process_command (b :: buffer)
       (set_ram_write rw
          (set_command_index i (set_command_size n (set_command_code c s))))
     = process_command (b :: buffer) s.
Proof.
  split; [|split; [|split; [|split]]].
  - repeat split. intros code H1 H2 H3. unfold command_args_size.
    destruct (Z.eqb_spec code CMD_MADCTL); [contradiction|].
    destruct (Z.eqb_spec code CMD_CASET); [contradiction|].
    destruct (Z.eqb_spec code CMD_RASET); [contradiction|]. reflexivity.
  - rewrite process_command_snoc. unfold bind.
    destruct (process_command buffer s) as [[[[] s1] o1]|]; [|reflexivity].
    rewrite process_command_byte_eq. reflexivity.
  - destruct (process_command_run buffer s) as (s' & o & E & _ & _ & _ & _ & Hr & _).
    exists s', o. split; assumption.
  - destruct (process_command_run buffer s) as (s1 & o1 & E1 & _ & _ & _ & Hb1 & _).
    destruct (process_command_byte_run b s1) as (s2 & o2 & E2 & Hp2 & _).
    exists s2, (o1 ++ o2). rewrite process_command_snoc. unfold bind. rewrite E1, E2.
    split; [reflexivity|]. rewrite Hp2, Hb1. reflexivity.
  - rewrite <- (process_command_forgets b buffer c n i s).
    rewrite !process_command_eq. f_equal. destruct s; reflexivity.
Qed.

(** ** Offsets handed to the pixel sink *)

(** C9.  For every state whose window lies on the output surface and whose
    cursor lies in the window, and every list of samples in any of the eight
    orientations, [process_data] issues one [buffer_write] per sample, each
    at a byte offset in [0, width * height * 4); window and cursor are again
    on the surface afterwards, so the bound holds chunk after chunk. *)
Theorem pixel_writes_stay_on_surface (s : chip_state_t) (samples : list Z) :
  window_on_surface s -> cursor_in_window s ->
  exists s' o,
    process_data samples s = Some (tt, s', o)
    /\ length o = length samples
    /\ Forall (fun out => exists offset color,
                 out = BufferWrite offset color
                 /\ 0 <= offset < width s * height s * 4) o
    /\ window_on_surface s' /\ cursor_in_window s'.
Proof.
  intros Hsurf Hin.
  assert (Ht : window_typed s).
  { unfold window_on_surface in Hsurf. unfold window_typed. lia. }
  destruct (process_data_run samples s Ht Hin) as (s' & o & E & F & Hin' & _ & Hlen & Hall).
  exists s', o. split; [assumption|]. split; [assumption|].
  split; [|split; [apply (same_but_cursor_window _ _ F); assumption|assumption]].
  eapply Forall_impl; [exact Hall|].
  intros out (t & v & -> & Ft & ((Hca & Hcb) & (Hra & Hrb))).
  eexists _, _. split; [reflexivity|].
  destruct (same_but_cursor_fields _ _ Ft)
    as (Hw & Hh & _ & _ & _ & Hc0 & Hc1 & Hr0 & Hr1 & _).
  destruct Hsurf as (S1 & S2 & S3 & S4 & S5 & S6).
  rewrite <- Hw, <- Hh.
  destruct (sink_on_surface t) as [Hx Hy]; [lia|lia|].
  rewrite pix_offset_modular. unfold u32.
  assert (Hv : 0 <= (sink_y t * width t + sink_x t) * 4 < width t * height t * 4) by nia.
  pose proof (Z.mod_pos_bound ((sink_y t * width t + sink_x t) * 4) (2 ^ 32) ltac:(lia)).
  pose proof (Z.mod_le ((sink_y t * width t + sink_x t) * 4) (2 ^ 32) ltac:(lia) ltac:(lia)).
  lia.
Qed.

Lemma pixel_writes_stay_on_surface_witness :
  window_on_surface last_cell_chip /\ cursor_in_window last_cell_chip
  /\ exists s' o,
       process_data [0xf800; 0x07e0] last_cell_chip = Some (tt, s', o)
       /\ length o = length [0xf800; 0x07e0]
       /\ Forall (fun out => exists offset color,
                    out = BufferWrite offset color
                    /\ 0 <= offset < width last_cell_chip * height last_cell_chip * 4) o
       /\ window_on_surface s' /\ cursor_in_window s'.
Proof.
  assert (Hs : window_on_surface last_cell_chip)
    by (unfold window_on_surface; simpl; lia).
  assert (Hin : cursor_in_window last_cell_chip)
    by (unfold cursor_in_window; simpl; lia).
  split; [exact Hs|]. split; [exact Hin|].
  exact (pixel_writes_stay_on_surface last_cell_chip [0xf800; 0x07e0] Hs Hin).
Defined.

(** ** The parameter buffer *)

(** A byte fed while arguments are expected is stored in the slot named by
    [command_index], one of the first four of [command_buf]. *)
Lemma process_command_args_byte_slot (b : Z) (s : chip_state_t) :
  accumulator_ok s -> command_index s < command_size s ->
  exists s' o,
    process_command_args_byte b s = Some (tt, s', o)
    /\ 0 <= command_index s < 4
    /\ command_buf s' = <[Z.to_nat (command_index s) := b]> (command_buf s)
    /\ command_index s' = command_index s + 1.
Proof.
  intros [Hi Hs] Hlt. rewrite process_command_args_byte_store by lia.
  set (s1 := set_command_index _ _).
  assert (H1 : pending_command s1
               = (command_code s, command_size s, command_index s + 1,
                  <[Z.to_nat (command_index s) := b]> (command_buf s)))
    by (subst s1; destruct s; reflexivity).
  destruct (command_size s =? command_index s + 1).
  - destruct (execute_command_frame s1) as (s' & o & E & _ & _ & _ & Hp & _).
    exists s', o. rewrite E. rewrite H1 in Hp. unfold pending_command in Hp.
    injection Hp as _ _ Hpi Hpb. repeat split; try assumption; lia.
  - exists s1, []. unfold pending_command in H1. injection H1 as _ _ Hpi Hpb.
    repeat split; try assumption; lia.
Qed.

(** After any command byte the accumulator is well formed, whatever the
    state was before. *)
Lemma command_chunk_establishes_accumulator_ok (cs : level) (b : Z) (rest : list Z)
    (s : chip_state_t) :
  mode s = MODE_COMMAND ->
  exists s' o, chip_spi_done cs (b :: rest) s = Some (tt, s', o) /\ accumulator_ok s'.
Proof.
  intros Hm. rewrite chip_spi_done_command by assumption.
  destruct (process_command_run (b :: rest) s) as (s' & o & E & _ & _ & _ & _ & _ & Hok).
  unfold bind. rewrite E.
  destruct cs; simpl; eexists _, _; (split; [reflexivity|]); apply Hok; right; discriminate.
Qed.

(** C10.  From every state in which the received count does not exceed the
    expected count and the expected count is at most 4, every sequence of
    delivered chunks, pin transitions (select, mode, reset) and flushed
    transfers runs without a store outside [command_buf], and ends in such a
    state again.  There, a byte fed while arguments are still expected is
    stored in one of the slots 0..3 of the 16-byte buffer, and once the
    received count has reached the expected count further data-mode bytes
    change nothing: no store, no output. *)
Theorem accumulator_never_overflows (s : chip_state_t) (events : list event) :
  accumulator_ok s ->
  exists s' o,
    run events s = Some (tt, s', o)
    /\ accumulator_ok s'
    /\ (forall b, command_index s' < command_size s' ->
        exists s'' o',
          process_command_args_byte b s' = Some (tt, s'', o')
          /\ 0 <= command_index s' < 4
          /\ command_buf s'' = <[Z.to_nat (command_index s') := b]> (command_buf s')
          /\ command_index s'' = command_index s' + 1)
    /\ (forall buffer, command_index s' = command_size s' ->
        process_command_args buffer s' = Some (tt, s', [])).
Proof.
  intros Hok.
  destruct (run_preserves accumulator_ok accumulator_ok_pending
              process_command_preserves_ok process_command_args_preserves_ok
              events s Hok) as (s' & o & E & Hok').
  exists s', o. split; [assumption|]. split; [assumption|]. split.
  - intros b Hlt. apply process_command_args_byte_slot; assumption.
  - intros buffer Heq. apply process_command_args_idle. lia.
Qed.

Lemma accumulator_never_overflows_witness :
  accumulator_ok reset_chip
  /\ exists s' o,
       run busy_session reset_chip = Some (tt, s', o)
       /\ accumulator_ok s'
       /\ (forall b, command_index s' < command_size s' ->
           exists s'' o',
             process_command_args_byte b s' = Some (tt, s'', o')
             /\ 0 <= command_index s' < 4
             /\ command_buf s'' = <[Z.to_nat (command_index s') := b]> (command_buf s')
             /\ command_index s'' = command_index s' + 1)
       /\ (forall buffer, command_index s' = command_size s' ->
           process_command_args buffer s' = Some (tt, s', [])).
Proof.
  assert (Hok : accumulator_ok reset_chip) by (unfold accumulator_ok; simpl; lia).
  split; [exact Hok|].
  exact (accumulator_never_overflows reset_chip busy_session Hok).
Defined.

(** * Further properties of the code *)

(** ** Orientation, warnings and colours *)

Lemma madctl_bits_ok_all (b : Z) : is_u8 b -> madctl_bits_ok b = true.
Proof.
  intros Hb. apply (check_from_sound madctl_bits_ok 256 0); [vm_compute; reflexivity|].
  unfold is_u8 in Hb. lia.
Qed.

(** X1.  Executing Memory-Access-Control on the argument byte [b] stores
    [b & 0xfc] in the scanning-direction register and changes nothing else:
    mirror-Y is bit 7 of [b], mirror-X bit 6, swap-axes bit 5, and the two
    low bits of the register are clear.  Nothing is output. *)
Theorem madctl_sets_orientation (s : chip_state_t) (b : Z) (rest : list Z) :
  is_u8 b -> command_code s = CMD_MADCTL -> command_buf s = b :: rest ->
  exists s',
    execute_command s = Some (tt, s', [])
    /\ s' = set_scanning_direction (Z.land b 0xfc) s
    /\ mirror_y s' = Z.testbit b 7
    /\ mirror_x s' = Z.testbit b 6
    /\ swap_axes s' = Z.testbit b 5
    /\ Z.land (scanning_direction s') 3 = 0.
Proof.
  intros Hb Hc Hbuf. exists (set_scanning_direction (Z.land b 0xfc) s).
  pose proof (madctl_bits_ok_all b Hb) as H. unfold madctl_bits_ok in H.
  repeat (apply andb_prop in H; destruct H as [H ?]).
  destruct s as [w h m cc cs ci cb rw ac c0 c1 ar r0 r1 sd]; simpl in *. subst cc cb.
  unfold mirror_y, mirror_x, swap_axes; simpl.
  split; [reflexivity|]. split; [reflexivity|].
  repeat split; try (apply eqb_prop; assumption). apply Z.eqb_eq. assumption.
Qed.

Lemma madctl_sets_orientation_witness :
  is_u8 0xa3 /\ command_code madctl_chip = CMD_MADCTL
  /\ command_buf madctl_chip = 0xa3 :: replicate 15 0
  /\ exists s',
       execute_command madctl_chip = Some (tt, s', [])
       /\ s' = set_scanning_direction (Z.land 0xa3 0xfc) madctl_chip
       /\ mirror_y s' = Z.testbit 0xa3 7
       /\ mirror_x s' = Z.testbit 0xa3 6
       /\ swap_axes s' = Z.testbit 0xa3 5
       /\ Z.land (scanning_direction s') 3 = 0.
Proof.
  assert (Hb : is_u8 0xa3) by (unfold is_u8; lia).
  split; [exact Hb|]. split; [reflexivity|]. split; [reflexivity|].
  exact (madctl_sets_orientation madctl_chip 0xa3 (replicate 15 0) Hb eq_refl eq_refl).
Defined.

Lemma process_command_byte_latch (b : Z) (s : chip_state_t) :
  process_command_byte b s =
    Some (tt, latch b s, if known_command b then [] else [UnknownCommand b]).
Proof.
  rewrite process_command_byte_eq. unfold latch, known_command, command_args_size.
  destruct (Z.eqb_spec b CMD_RAMWR) as [->|H1]; [destruct s; reflexivity|].
  destruct (Z.eqb_spec b CMD_MADCTL) as [->|H2]; [destruct s; reflexivity|].
  destruct (Z.eqb_spec b CMD_CASET) as [->|H3]; [destruct s; reflexivity|].
  destruct (Z.eqb_spec b CMD_RASET) as [->|H4]; [destruct s; reflexivity|].
  simpl. destruct s as [w h m cc cs ci cb rw ac c0 c1 ar r0 r1 sd].
  unfold execute_command, start_command, command_args_size. run_monad.
  apply Z.eqb_neq in H1, H2, H3, H4.
  unfold CMD_RAMWR, CMD_MADCTL, CMD_CASET, CMD_RASET in *.
  repeat (rewrite ?H1, ?H2, ?H3, ?H4; simpl). reflexivity.
Qed.

Lemma process_command_explicit (buffer : list Z) (s : chip_state_t) :
  process_command buffer s =
    Some (tt, fold_left (fun t b => latch b t) buffer (set_ram_write false s),
          warnings_of buffer).
Proof.
  rewrite process_command_eq. generalize (set_ram_write false s). clear s.
  induction buffer as [|b rest IH]; intros s; [reflexivity|].
  simpl for_each. unfold bind. rewrite process_command_byte_latch, IH.
  unfold warnings_of. simpl. destruct (known_command b); reflexivity.
Qed.

Lemma latch_addressing (b : Z) (s : chip_state_t) :
  addressing (latch b s) = addressing s
  /\ width (latch b s) = width s /\ height (latch b s) = height s
  /\ mode (latch b s) = mode s /\ command_buf (latch b s) = command_buf s.
Proof. unfold latch. destruct (b =? CMD_RAMWR); destruct s; repeat split. Qed.

(** X2.  A chunk of command bytes never fails, and what it prints is one
    unknown-command warning for each byte that is not Memory-Write,
    Memory-Access-Control, Column-Address-Set or Row-Address-Set, in the
    order of the bytes; No-Operation (0x00) and Memory-Read (0x2e) are
    reported like any other unhandled code. *)
Theorem process_command_warnings (s : chip_state_t) (buffer : list Z) :
  exists s',
    process_command buffer s
      = Some (tt, s',
              map UnknownCommand (List.filter (fun b => negb (known_command b)) buffer)).
Proof. eexists. rewrite process_command_explicit. reflexivity. Qed.

(** X3.  A chunk delivered in command mode never moves the window, the
    cursor or the orientation, and keeps the mode, the surface size and the
    bytes of the parameter buffer; it outputs only warnings and the request
    for the next chunk. *)
Theorem command_chunk_keeps_addressing (s : chip_state_t) (cs : level)
    (buffer : list Z) :
  mode s = MODE_COMMAND ->
  exists s' o,
    chip_spi_done cs buffer s = Some (tt, s', o)
    /\ addressing s' = addressing s
    /\ width s' = width s /\ height s' = height s /\ mode s' = mode s
    /\ command_buf s' = command_buf s
    /\ Forall (fun out => out = SpiStart \/ exists b, out = UnknownCommand b) o.
Proof.
  intros Hm. destruct buffer as [|b rest].
  - exists s, []. repeat split. constructor.
  - rewrite chip_spi_done_command by assumption. unfold bind.
    rewrite process_command_explicit.
    assert (F : forall l t,
               addressing (fold_left (fun t b => latch b t) l t) = addressing t
               /\ width (fold_left (fun t b => latch b t) l t) = width t
               /\ height (fold_left (fun t b => latch b t) l t) = height t
               /\ mode (fold_left (fun t b => latch b t) l t) = mode t
               /\ command_buf (fold_left (fun t b => latch b t) l t) = command_buf t).
    { induction l as [|x l IH]; intros t; simpl; [repeat split|].
      destruct (IH (latch x t)) as (A1 & A2 & A3 & A4 & A5).
      destruct (latch_addressing x t) as (B1 & B2 & B3 & B4 & B5).
      repeat split; congruence. }
    destruct (F (b :: rest) (set_ram_write false s)) as (A1 & A2 & A3 & A4 & A5).
    assert (W : Forall (fun out => out = SpiStart \/ exists b, out = UnknownCommand b)
                  (warnings_of (b :: rest))).
    { unfold warnings_of. apply Forall_forall. intros out Hin.
      apply list_elem_of_In, in_map_iff in Hin. destruct Hin as (x & <- & _). right. eauto. }
    remember (fold_left (fun t b => latch b t) (b :: rest) (set_ram_write false s)) as s'.
    assert (A1' : addressing s' = addressing s) by (rewrite A1; destruct s; reflexivity).
    assert (A2' : width s' = width s) by (rewrite A2; destruct s; reflexivity).
    assert (A3' : height s' = height s) by (rewrite A3; destruct s; reflexivity).
    assert (A4' : mode s' = mode s) by (rewrite A4; destruct s; reflexivity).
    assert (A5' : command_buf s' = command_buf s) by (rewrite A5; destruct s; reflexivity).
    exists s', (warnings_of (b :: rest) ++ (if level_eqb cs LOW then [SpiStart] else [])).
    split; [destruct cs; reflexivity|].
    do 5 (split; [assumption|]).
    apply Forall_app. split; [exact W|]. destruct cs; repeat constructor.
Qed.

Lemma command_chunk_keeps_addressing_witness :
  mode reset_chip = MODE_COMMAND
  /\ exists s' o,
       chip_spi_done LOW [0x00; 0x2e; 0x2a; 0x2c] reset_chip = Some (tt, s', o)
       /\ addressing s' = addressing reset_chip
       /\ width s' = width reset_chip /\ height s' = height reset_chip
       /\ mode s' = mode reset_chip
       /\ command_buf s' = command_buf reset_chip
       /\ Forall (fun out => out = SpiStart \/ exists b, out = UnknownCommand b) o.
Proof.
  split; [reflexivity|].
  exact (command_chunk_keeps_addressing reset_chip LOW [0x00; 0x2e; 0x2a; 0x2c] eq_refl).
Defined.

Lemma rgb565_round_trip_all (v : Z) : 0 <= v < 2 ^ 16 -> rgb565_round_trip v = true.
Proof.
  intros Hv.
  apply (check_from_sound rgb565_round_trip (Z.to_nat (2 ^ 16)) 0).
  - vm_compute. reflexivity.
  - rewrite Z2Nat.id by lia. lia.
Qed.

(** X4.  The colour conversion loses nothing: two different 16-bit samples
    never convert to the same RGBA value. *)
Theorem rgb565_to_rgba_injective (v w : Z) :
  0 <= v < 2 ^ 16 -> 0 <= w < 2 ^ 16 ->
  rgb565_to_rgba v = rgb565_to_rgba w -> v = w.
Proof.
  intros Hv Hw E.
  pose proof (rgb565_round_trip_all v Hv) as Rv.
  pose proof (rgb565_round_trip_all w Hw) as Rw.
  unfold rgb565_round_trip in *. apply Z.eqb_eq in Rv, Rw.
  rewrite <- Rv, <- Rw, E. reflexivity.
Qed.

Lemma rgb565_to_rgba_injective_witness :
  0 <= 0x1234 < 2 ^ 16
  /\ rgb565_to_rgba 0x1234 = rgb565_to_rgba 0x1234
  /\ 0x1234 = 0x1234.
Proof.
  assert (Hv : 0 <= 0x1234 < 2 ^ 16) by lia.
  split; [exact Hv|]. split; [reflexivity|].
  exact (rgb565_to_rgba_injective 0x1234 0x1234 Hv Hv eq_refl).
Defined.

(** ** Samples *)

(** Induction two bytes at a time, the way [samples_of] consumes a buffer. *)
Lemma byte_pairs_ind (P : list Z -> Prop) :
  P [] -> (forall x, P [x]) -> (forall lo hi rest, P rest -> P (lo :: hi :: rest)) ->
  forall buffer, P buffer.
Proof.
  intros H0 H1 H2 buffer.
  assert (H : P buffer /\ forall x, P (x :: buffer)).
  { induction buffer as [|y rest [IH1 IH2]]; [split; auto|].
    split; [apply IH2|]. intros x. apply H2. exact IH1. }
  apply H.
Qed.

Lemma samples_of_length (buffer : list Z) :
  length (samples_of buffer) = (length buffer / 2)%nat.
Proof.
  induction buffer as [| x | lo hi rest IH] using byte_pairs_ind; try reflexivity.
  simpl samples_of. simpl length. rewrite IH.
  change (S (S (length rest))) with (1 * 2 + length rest)%nat.
  rewrite Nat.div_add_l by lia. lia.
Qed.

Lemma samples_of_app (a b : list Z) :
  Nat.even (length a) = true -> samples_of (a ++ b) = samples_of a ++ samples_of b.
Proof.
  induction a as [| x | lo hi rest IH] using byte_pairs_ind; intros He.
  - reflexivity.
  - discriminate.
  - simpl. rewrite IH by exact He. reflexivity.
Qed.

Lemma samples_of_typed (buffer : list Z) :
  Forall is_u8 buffer -> Forall is_u16 (samples_of buffer).
Proof.
  induction buffer as [| x | lo hi rest IH] using byte_pairs_ind; intros Hb;
    try constructor.
  - apply Forall_cons in Hb as [Hlo Hb]. apply Forall_cons in Hb as [Hhi Hb].
    unfold is_u8, is_u16 in *. rewrite Z.lor_comm, lor_shiftl_byte by lia. lia.
  - apply IH. apply Forall_cons in Hb as [_ Hb]. apply Forall_cons in Hb as [_ Hb].
    exact Hb.
Qed.

(** X5.  A pixel chunk is read two bytes at a time, the first byte of a
    pair being the low byte of the sample; a chunk of n bytes holds n / 2
    samples; a trailing odd byte is not read; and a chunk cut after an even
    number of bytes holds the samples of its two parts. *)
Theorem samples_pair_bytes_low_first (lo hi x : Z) (a rest : list Z) :
  is_u8 lo -> is_u8 hi -> Nat.even (length a) = true ->
  samples_of (lo :: hi :: rest) = (hi * 256 + lo) :: samples_of rest
  /\ length (samples_of a) = (length a / 2)%nat
  /\ samples_of (a ++ [x]) = samples_of a
  /\ samples_of (a ++ rest) = samples_of a ++ samples_of rest.
Proof.
  unfold is_u8. intros Hlo Hhi He.
  split; [simpl; rewrite Z.lor_comm, lor_shiftl_byte by lia; reflexivity|].
  split; [apply samples_of_length|].
  split; [rewrite samples_of_app by exact He; apply app_nil_r|].
  apply samples_of_app. exact He.
Qed.

Lemma samples_pair_bytes_low_first_witness :
  is_u8 0x00 /\ is_u8 0xf8 /\ Nat.even (length [1; 2]) = true
  /\ samples_of (0x00 :: 0xf8 :: [3; 4]) = (0xf8 * 256 + 0x00) :: samples_of [3; 4]
  /\ length (samples_of [1; 2]) = (length [1; 2] / 2)%nat
  /\ samples_of ([1; 2] ++ [7]) = samples_of [1; 2]
  /\ samples_of ([1; 2] ++ [3; 4]) = samples_of [1; 2] ++ samples_of [3; 4].
Proof.
  assert (H0 : is_u8 0x00) by (unfold is_u8; lia).
  assert (H1 : is_u8 0xf8) by (unfold is_u8; lia).
  split; [exact H0|]. split; [exact H1|]. split; [reflexivity|].
  exact (samples_pair_bytes_low_first 0x00 0xf8 7 [1; 2] [3; 4] H0 H1 eq_refl).
Defined.

(** ** Pixel chunks *)

Lemma process_data_colors (samples : list Z) :
  forall s, exists s' o,
    process_data samples s = Some (tt, s', o)
    /\ same_but_cursor s s'
    /\ Forall2 (fun v out => exists offset, out = BufferWrite offset (rgb565_to_rgba v))
         samples o.
Proof.
  unfold process_data.
  induction samples as [|v rest IH]; intros s; simpl for_each.
  - exists s, []. split; [reflexivity|]. split; [apply same_but_cursor_refl|constructor].
  - unfold bind. rewrite process_data_sample_eq.
    destruct (advance_cursor_frame s) as (col & row & E). rewrite E.
    destruct (IH (set_cursor col row s)) as (s' & o & E' & F & Hall). rewrite E'.
    eexists _, _. split; [reflexivity|]. split.
    + eapply same_but_cursor_trans; [apply same_but_cursor_set|exact F].
    + simpl. constructor; [eauto|exact Hall].
Qed.

Lemma chip_spi_done_pixels (cs : level) (b : Z) (rest : list Z) (s : chip_state_t) :
  mode s = MODE_DATA -> ram_write s = true ->
  chip_spi_done cs (b :: rest) s =
    (process_data (samples_of (b :: rest)) ;;; when (level_eqb cs LOW) (emit SpiStart)) s.
Proof.
  intros Hm Hr.
  destruct s as [w h m cc sz ci cb rw ac c0 c1 ar r0 r1 sd]; simpl in Hm, Hr; subst m rw.
  cbv [chip_spi_done bind get mode ram_write mode_eqb].
  destruct (process_data (samples_of (b :: rest)) _) as [[[[] s1] o1]|]; [|reflexivity].
  destruct (when (level_eqb cs LOW) (emit SpiStart) s1) as [[[[] s2] o2]|]; reflexivity.
Qed.

(** X6.  In data mode with the ram-write flag set, a chunk of n bytes
    issues exactly n / 2 pixel writes, the i-th carrying the conversion of
    the i-th sample of the chunk, followed by the request for the next chunk
    when the chunk is not empty and the select line is low; nothing but the
    cursor changes. *)
Theorem pixel_chunk_writes (s : chip_state_t) (cs : level) (buffer : list Z) :
  mode s = MODE_DATA -> ram_write s = true ->
  exists s' writes,
    chip_spi_done cs buffer s
      = Some (tt, s',
              writes ++ match buffer, cs with
                        | _ :: _, LOW => [SpiStart]
                        | _, _ => []
                        end)
    /\ same_but_cursor s s'
    /\ length writes = (length buffer / 2)%nat
    /\ Forall2 (fun v out => exists offset, out = BufferWrite offset (rgb565_to_rgba v))
         (samples_of buffer) writes.
Proof.
  intros Hm Hr. destruct buffer as [|b rest].
  - exists s, []. split; [destruct cs; reflexivity|].
    split; [apply same_but_cursor_refl|]. split; [reflexivity|constructor].
  - rewrite chip_spi_done_pixels by assumption.
    destruct (process_data_colors (samples_of (b :: rest)) s) as (s' & o & E & F & Hall).
    exists s', o. unfold bind. rewrite E.
    split; [destruct cs; reflexivity|]. split; [assumption|]. split; [|assumption].
    rewrite <- samples_of_length. symmetry. eapply Forall2_length. exact Hall.
Qed.

Lemma pixel_chunk_writes_witness :
  mode last_cell_chip = MODE_DATA /\ ram_write last_cell_chip = true
  /\ exists s' writes,
       chip_spi_done LOW [0x00; 0xf8; 0xe0; 0x07; 9] last_cell_chip
         = Some (tt, s', writes ++ [SpiStart])
       /\ same_but_cursor last_cell_chip s'
       /\ length writes = (length [0x00; 0xf8; 0xe0; 0x07; 9] / 2)%nat
       /\ Forall2 (fun v out => exists offset,
                     out = BufferWrite offset (rgb565_to_rgba v))
            (samples_of [0x00; 0xf8; 0xe0; 0x07; 9]) writes.
Proof.
  split; [reflexivity|]. split; [reflexivity|].
  exact (pixel_chunk_writes last_cell_chip LOW [0x00; 0xf8; 0xe0; 0x07; 9]
           eq_refl eq_refl).
Defined.

Lemma exec_chip_spi_done_pixels (cs : level) (buffer : list Z) (s : chip_state_t) :
  mode s = MODE_DATA -> ram_write s = true ->
  exec (chip_spi_done cs buffer) s = exec (process_data (samples_of buffer)) s.
Proof.
  intros Hm Hr. destruct buffer as [|b rest]; [reflexivity|].
  unfold exec at 1. rewrite chip_spi_done_pixels by assumption.
  unfold exec, bind.
  destruct (process_data (samples_of (b :: rest)) s) as [[[[] s1] o1]|]; [|reflexivity].
  destruct cs; reflexivity.
Qed.

(** X7.  With the ram-write flag set in data mode, a pixel stream may be
    cut into chunks after any even number of bytes: the chunk [a ++ b]
    leaves the chip in the same state as chunk [a] followed by chunk [b].
    A single byte after an even number of bytes is lost: the chunk
    [a ++ [x]] leaves the same state as [a]. *)
Theorem pixel_stream_splits_at_even_bytes (s : chip_state_t) (cs : level)
    (a b : list Z) (x : Z) :
  mode s = MODE_DATA -> ram_write s = true -> Nat.even (length a) = true ->
  exec (chip_spi_done cs (a ++ b)) s = exec (chip_spi_done cs a ;;; chip_spi_done cs b) s
  /\ exec (chip_spi_done cs (a ++ [x])) s = exec (chip_spi_done cs a) s.
Proof.
  intros Hm Hr He.
  assert (Happ : forall c, exec (chip_spi_done cs (a ++ c)) s
                           = exec (chip_spi_done cs a ;;; chip_spi_done cs c) s).
  { intros c. rewrite exec_bind, exec_chip_spi_done_pixels, samples_of_app by assumption.
    transitivity (exec (process_data (samples_of a) ;;; process_data (samples_of c)) s).
    { unfold exec, process_data. rewrite for_each_app. reflexivity. }
    rewrite exec_bind.
    destruct (pixel_chunk_writes s cs a Hm Hr) as (s1 & w1 & E1 & F1 & _).
    destruct (process_data_colors (samples_of a) s) as (s2 & o2 & E2 & F2 & _).
    rewrite E1, E2.
    assert (s1 = s2).
    { pose proof (exec_chip_spi_done_pixels cs a s Hm Hr) as E.
      unfold exec in E. rewrite E1, E2 in E. congruence. }
    subst s2. symmetry. apply exec_chip_spi_done_pixels.
    - apply same_but_cursor_fields in F1. destruct F1 as (_ & _ & -> & _). assumption.
    - apply same_but_cursor_fields in F1. destruct F1 as (_ & _ & _ & _ & -> & _).
      assumption. }
  split; [apply Happ|].
  rewrite Happ, exec_bind.
  destruct (pixel_chunk_writes s cs a Hm Hr) as (s1 & w1 & E1 & F1 & _). rewrite E1.
  unfold exec at 2. rewrite E1.
  apply same_but_cursor_fields in F1. destruct F1 as (_ & _ & Hm1 & _ & Hr1 & _).
  rewrite exec_chip_spi_done_pixels by congruence. reflexivity.
Qed.

Lemma pixel_stream_splits_at_even_bytes_witness :
  mode last_cell_chip = MODE_DATA /\ ram_write last_cell_chip = true
  /\ Nat.even (length [0x00; 0xf8]) = true
  /\ exec (chip_spi_done LOW ([0x00; 0xf8] ++ [0xe0; 0x07])) last_cell_chip
     = exec (chip_spi_done LOW [0x00; 0xf8] ;;; chip_spi_done LOW [0xe0; 0x07])
         last_cell_chip
  /\ exec (chip_spi_done LOW ([0x00; 0xf8] ++ [9])) last_cell_chip
     = exec (chip_spi_done LOW [0x00; 0xf8]) last_cell_chip.
Proof.
  split; [reflexivity|]. split; [reflexivity|]. split; [reflexivity|].
  exact (pixel_stream_splits_at_even_bytes last_cell_chip LOW [0x00; 0xf8] [0xe0; 0x07] 9
           eq_refl eq_refl eq_refl).
Defined.


(** ** Full passes over the window *)

Lemma same_cursor_same_state (s s' : chip_state_t) :
  same_but_cursor s s' ->
  (active_column s', active_row s') = (active_column s, active_row s) -> s' = s.
Proof.
  unfold same_but_cursor. intros F E. injection E as Ec Er.
  rewrite F, Ec, Er. destruct s; reflexivity.
Qed.

(** X8.  With the cursor in the window, streaming a whole number of
    window areas of samples brings the chip back to exactly the state it
    started from, wherever in the window the cursor stood. *)
Theorem full_passes_return_cursor (s : chip_state_t) (samples : list Z) (m : Z) :
  window_typed s -> cursor_in_window s ->
  Z.of_nat (length samples) = m * window_area s ->
  exec (process_data samples) s = Some s.
Proof.
  intros Ht Hin Hlen.
  destruct (process_data_run samples s Ht Hin) as (s' & o & E & F & Hin' & Hidx & _).
  unfold exec. rewrite E. f_equal. apply same_cursor_same_state; [assumption|].
  rewrite <- (raster_position_index s' Hin'), <- (raster_position_index s Hin).
  rewrite (same_but_cursor_raster s s' _ F). f_equal.
  rewrite Hidx, Hlen, Z_mod_plus_full. apply Z.mod_small.
  apply raster_index_range. assumption.
Qed.

Lemma full_passes_return_cursor_witness :
  window_typed (small_window_chip 0) /\ cursor_in_window (small_window_chip 0)
  /\ Z.of_nat (length [1; 2; 3; 4; 5; 6; 7; 8]) = 2 * window_area (small_window_chip 0)
  /\ exec (process_data [1; 2; 3; 4; 5; 6; 7; 8]) (small_window_chip 0)
     = Some (small_window_chip 0).
Proof.
  assert (Ht : window_typed (small_window_chip 0))
    by (unfold window_typed; simpl; lia).
  assert (Hin : cursor_in_window (small_window_chip 0))
    by (unfold cursor_in_window; simpl; lia).
  split; [exact Ht|]. split; [exact Hin|]. split; [reflexivity|].
  exact (full_passes_return_cursor (small_window_chip 0) [1; 2; 3; 4; 5; 6; 7; 8] 2
           Ht Hin eq_refl).
Defined.

(** ** Where each sample lands *)

Lemma set_cursor_set_cursor (a b c r : Z) (s : chip_state_t) :
  set_cursor a b (set_cursor c r s) = set_cursor a b s.
Proof. destruct s; reflexivity. Qed.

Lemma set_cursor_same (s : chip_state_t) :
  set_cursor (active_column s) (active_row s) s = s.
Proof. destruct s; reflexivity. Qed.

Lemma cell_offset_same_window (s s' : chip_state_t) (k : Z) :
  same_but_cursor s s' -> cell_offset s' k = cell_offset s k.
Proof.
  intros F. unfold cell_offset. rewrite (same_but_cursor_raster s s' k F).
  rewrite F, set_cursor_set_cursor. reflexivity.
Qed.

Lemma cell_offset_cursor (s : chip_state_t) :
  cursor_in_window s -> cell_offset s (raster_index s) = pix_offset s.
Proof.
  intros Hin. unfold cell_offset. rewrite (raster_position_index s Hin). simpl.
  rewrite set_cursor_same. reflexivity.
Qed.

Lemma process_data_cells (samples : list Z) :
  forall s, window_typed s -> cursor_in_window s ->
  exists s' o,
    process_data samples s = Some (tt, s', o)
    /\ length o = length samples
    /\ forall (i : nat) (v : Z), samples !! i = Some v ->
         o !! i = Some (BufferWrite
                          (cell_offset s ((raster_index s + Z.of_nat i) mod window_area s))
                          (rgb565_to_rgba v)).
Proof.
  unfold process_data.
  induction samples as [|v rest IH]; intros s Ht Hin; simpl for_each.
  - exists s, []. split; [reflexivity|]. split; [reflexivity|]. intros i x H. discriminate.
  - destruct (advance_cursor_step s Ht Hin) as (col & row & E & Hin1 & Hidx1).
    pose proof (same_but_cursor_set col row s) as F1.
    destruct (same_but_cursor_window _ _ F1) as (Ha1 & _ & Ht1 & _).
    destruct (IH _ (Ht1 Ht) Hin1) as (s' & o & E' & Hlen & Hcells).
    unfold bind. rewrite process_data_sample_eq, E, E'.
    eexists _, _. split; [reflexivity|]. split; [simpl; rewrite Hlen; reflexivity|].
    intros [|j] x Hx; simpl in Hx |- *.
    + injection Hx as <-. rewrite Z.add_0_r, Z.mod_small
        by (apply raster_index_range; assumption).
      rewrite cell_offset_cursor by assumption. reflexivity.
    + rewrite (Hcells j x Hx), Hidx1, Ha1, Zplus_mod_idemp_l.
      rewrite (cell_offset_same_window s _ _ F1). do 4 f_equal. lia.
Qed.

(** X9.  In data mode with the ram-write flag set and the cursor in the
    window at raster position k, the i-th sample of a chunk is written,
    converted, at the offset the pixel writer computes for raster position
    (k + i) mod A of the window (A the area); one write per sample, in
    order, then the request for the next chunk. *)
Theorem chunk_samples_land_on_raster_cells (s : chip_state_t) (cs : level)
    (buffer : list Z) :
  mode s = MODE_DATA -> ram_write s = true ->
  window_typed s -> cursor_in_window s ->
  exists s' writes,
    chip_spi_done cs buffer s
      = Some (tt, s',
              writes ++ match buffer, cs with
                        | _ :: _, LOW => [SpiStart]
                        | _, _ => []
                        end)
    /\ length writes = length (samples_of buffer)
    /\ forall (i : nat) (v : Z), samples_of buffer !! i = Some v ->
         writes !! i
           = Some (BufferWrite
                     (cell_offset s ((raster_index s + Z.of_nat i) mod window_area s))
                     (rgb565_to_rgba v)).
Proof.
  intros Hm Hr Ht Hin. destruct buffer as [|b rest].
  - exists s, []. split; [destruct cs; reflexivity|]. split; [reflexivity|].
    intros i v H. discriminate.
  - rewrite chip_spi_done_pixels by assumption.
    destruct (process_data_cells (samples_of (b :: rest)) s Ht Hin)
      as (s' & o & E & Hlen & Hcells).
    exists s', o. unfold bind. rewrite E.
    split; [destruct cs; reflexivity|]. split; assumption.
Qed.

Lemma chunk_samples_land_on_raster_cells_witness :
  mode (small_window_chip SCAN_MV) = MODE_DATA
  /\ ram_write (small_window_chip SCAN_MV) = true
  /\ window_typed (small_window_chip SCAN_MV)
  /\ cursor_in_window (small_window_chip SCAN_MV)
  /\ exists s' writes,
       chip_spi_done LOW [1; 2; 3; 4; 5] (small_window_chip SCAN_MV)
         = Some (tt, s', writes ++ [SpiStart])
       /\ length writes = length (samples_of [1; 2; 3; 4; 5])
       /\ forall (i : nat) (v : Z), samples_of [1; 2; 3; 4; 5] !! i = Some v ->
            writes !! i
              = Some (BufferWrite
                        (cell_offset (small_window_chip SCAN_MV)
                           ((raster_index (small_window_chip SCAN_MV) + Z.of_nat i)
                            mod window_area (small_window_chip SCAN_MV)))
                        (rgb565_to_rgba v)).
Proof.
  assert (Ht : window_typed (small_window_chip SCAN_MV))
    by (unfold window_typed; simpl; lia).
  assert (Hin : cursor_in_window (small_window_chip SCAN_MV))
    by (unfold cursor_in_window; simpl; lia).
  split; [reflexivity|]. split; [reflexivity|]. split; [exact Ht|]. split; [exact Hin|].
  exact (chunk_samples_land_on_raster_cells (small_window_chip SCAN_MV) LOW
           [1; 2; 3; 4; 5] eq_refl eq_refl Ht Hin).
Defined.


(** The [k]-th position of a window lies in the window and has index [k]. *)
Lemma raster_position_in_window (s : chip_state_t) (k col row : Z) :
  column_start s <= column_end s -> row_start s <= row_end s ->
  0 <= k < window_area s ->
  raster_position s k = (col, row) ->
  cursor_in_window (set_cursor col row s) /\ raster_index (set_cursor col row s) = k.
Proof.
  intros Hc Hr Hk Hp.
  destruct s as [w h m cc sz ci cb rw ac c0 c1 ar r0 r1 sd].
  unfold raster_position, cursor_in_window, raster_index, window_area, window_width,
    window_height, swap_axes, set_cursor in *. simpl in *.
  destruct (scan_bit sd SCAN_MV); injection Hp as <- <-.
  - pose proof (Z.div_mod k (r1 - r0 + 1) ltac:(lia)).
    pose proof (Z.mod_pos_bound k (r1 - r0 + 1) ltac:(lia)).
    assert (0 <= k / (r1 - r0 + 1) < c1 - c0 + 1).
    { split; [apply Z.div_pos; lia|apply Z.div_lt_upper_bound; nia]. }
    split; [lia|]. nia.
  - pose proof (Z.div_mod k (c1 - c0 + 1) ltac:(lia)).
    pose proof (Z.mod_pos_bound k (c1 - c0 + 1) ltac:(lia)).
    assert (0 <= k / (c1 - c0 + 1) < r1 - r0 + 1).
    { split; [apply Z.div_pos; lia|apply Z.div_lt_upper_bound; nia]. }
    split; [lia|]. nia.
Qed.


Lemma shifted_indices_differ (k a i j : Z) :
  0 <= i < a -> 0 <= j < a -> i <> j -> (k + i) mod a <> (k + j) mod a.
Proof.
  intros Hi Hj Hne E.
  pose proof (Z.div_mod (k + i) a ltac:(lia)).
  pose proof (Z.div_mod (k + j) a ltac:(lia)).
  rewrite E in *.
  set (d := (k + i) / a - (k + j) / a).
  assert (Hd : i - j = a * d) by (unfold d; lia).
  assert (Hcases : d = 0 \/ 1 <= d \/ d <= -1) by lia.
  destruct Hcases as [Dz | [Dp | Dn]]; [rewrite Dz in Hd; lia | nia | nia].
Qed.


Lemma linear_offset_injective (w h x1 y1 x2 y2 : Z) :
  0 <= x1 < w -> 0 <= x2 < w -> 0 <= y1 < h -> 0 <= y2 < h ->
  (y1 * w + x1) * 4 = (y2 * w + x2) * 4 -> x1 = x2 /\ y1 = y2.
Proof.
  intros Hx1 Hx2 Hy1 Hy2 E.
  assert (Hy : y1 = y2).
  { assert (Hc : y1 = y2 \/ y1 + 1 <= y2 \/ y2 + 1 <= y1) by lia.
    destruct Hc as [? | [? | ?]]; [assumption | nia | nia]. }
  subst y2. split; [lia|reflexivity].
Qed.

(** On a surface whose bytes are addressable with 32 bits, two cursors on
    the surface never share an offset. *)
Lemma pix_offset_injective (ta tb : chip_state_t) :
  scanning_direction ta = scanning_direction tb ->
  width ta = width tb -> height ta = height tb ->
  width ta * height ta * 4 <= 2 ^ 32 ->
  0 <= active_column ta < width ta -> 0 <= active_row ta < height ta ->
  0 <= active_column tb < width ta -> 0 <= active_row tb < height ta ->
  pix_offset ta = pix_offset tb ->
  active_column ta = active_column tb /\ active_row ta = active_row tb.
Proof.
  intros Hsd Hw Hh Hfit Hca Hra Hcb Hrb E.
  destruct (sink_on_surface ta Hca Hra) as [Xa Ya].
  destruct (sink_on_surface tb) as [Xb Yb]; [lia|lia|].
  rewrite !pix_offset_modular in E. rewrite <- Hw in E, Xb. rewrite <- Hh in Yb.
  assert (Ba : 0 <= (sink_y ta * width ta + sink_x ta) * 4 < 2 ^ 32) by nia.
  assert (Bb : 0 <= (sink_y tb * width ta + sink_x tb) * 4 < 2 ^ 32) by nia.
  rewrite !u32_small in E by assumption.
  destruct (linear_offset_injective _ _ _ _ _ _ Xa Xb Ya Yb E) as [Ex Ey].
  unfold sink_x, sink_y, swap_axes, mirror_x, mirror_y in Ex, Ey.
  rewrite <- ?Hsd, <- ?Hw, <- ?Hh in Ex, Ey.
  destruct (scan_bit (scanning_direction ta) SCAN_MV),
    (scan_bit (scanning_direction ta) SCAN_MX),
    (scan_bit (scanning_direction ta) SCAN_MY); lia.
Qed.


Lemma cell_offset_eq (s : chip_state_t) (k col row : Z) :
  raster_position s k = (col, row) -> cell_offset s k = pix_offset (set_cursor col row s).
Proof. intros H. unfold cell_offset. rewrite H. reflexivity. Qed.

Lemma window_cells_have_distinct_offsets (s : chip_state_t) (ca ra cb rb : Z) :
  window_on_surface s -> width s * height s * 4 <= 2 ^ 32 ->
  cursor_in_window (set_cursor ca ra s) -> cursor_in_window (set_cursor cb rb s) ->
  pix_offset (set_cursor ca ra s) = pix_offset (set_cursor cb rb s) ->
  ca = cb /\ ra = rb.
Proof.
  intros Hs Hfit Ia Ib E.
  destruct Hs as (S1 & S2 & S3 & S4 & S5 & S6).
  pose proof (set_cursor_fields ca ra s)
    as (Wa & Ha' & _ & _ & _ & A0 & A1 & A2 & A3 & SDa & Ca & Ra).
  pose proof (set_cursor_fields cb rb s)
    as (Wb & Hb' & _ & _ & _ & B0 & B1 & B2 & B3 & SDb & Cb & Rb).
  destruct Ia as [Iac Iar]. destruct Ib as [Ibc Ibr].
  assert (Hcr : active_column (set_cursor ca ra s) = active_column (set_cursor cb rb s)
                /\ active_row (set_cursor ca ra s) = active_row (set_cursor cb rb s)).
  { apply pix_offset_injective;
      [congruence | congruence | congruence | rewrite Wa, Ha'; assumption
      | lia | lia | lia | lia | exact E]. }
  rewrite Ca, Ra, Cb, Rb in Hcr. exact Hcr.
Qed.

Lemma cell_offset_injective (s : chip_state_t) (a b : Z) :
  window_on_surface s -> width s * height s * 4 <= 2 ^ 32 ->
  0 <= a < window_area s -> 0 <= b < window_area s ->
  cell_offset s a = cell_offset s b -> a = b.
Proof.
  intros Hs Hfit Ha Hb E.
  destruct (raster_position s a) as [ca ra] eqn:Pa.
  destruct (raster_position s b) as [cb rb] eqn:Pb.
  rewrite (cell_offset_eq s a ca ra Pa), (cell_offset_eq s b cb rb Pb) in E.
  assert (Hc : column_start s <= column_end s) by (unfold window_on_surface in Hs; lia).
  assert (Hr : row_start s <= row_end s) by (unfold window_on_surface in Hs; lia).
  destruct (raster_position_in_window s a ca ra Hc Hr Ha Pa) as [Ia Ka].
  destruct (raster_position_in_window s b cb rb Hc Hr Hb Pb) as [Ib Kb].
  destruct (window_cells_have_distinct_offsets s ca ra cb rb Hs Hfit Ia Ib E) as [-> ->].
  rewrite <- Ka, <- Kb. reflexivity.
Qed.


(** X10.  On a surface whose bytes are addressable with 32 bits, with the
    window on the surface and the cursor in the window, a stream of at most
    one window area of samples never writes the same offset twice: within
    one pass every cell is written at most once, in every orientation. *)
Theorem one_pass_offsets_distinct (s : chip_state_t) (samples : list Z) :
  window_on_surface s -> cursor_in_window s ->
  width s * height s * 4 <= 2 ^ 32 ->
  Z.of_nat (length samples) <= window_area s ->
  exists s' o,
    process_data samples s = Some (tt, s', o)
    /\ forall (i j : nat) oi ci oj cj,
         o !! i = Some (BufferWrite oi ci) -> o !! j = Some (BufferWrite oj cj) ->
         i <> j -> oi <> oj.
Proof.
  intros Hs Hin Hfit Hlen.
  assert (Ht : window_typed s).
  { unfold window_on_surface in Hs. unfold window_typed. lia. }
  destruct (process_data_cells samples s Ht Hin) as (s' & o & E & Hl & Hcells).
  exists s', o. split; [assumption|].
  intros i j oi ci oj cj Hi Hj Hne Eo.
  assert (Li : (i < length samples)%nat)
    by (rewrite <- Hl; eapply lookup_lt_Some; exact Hi).
  assert (Lj : (j < length samples)%nat)
    by (rewrite <- Hl; eapply lookup_lt_Some; exact Hj).
  destruct (lookup_lt_is_Some_2 samples i Li) as [vi Vi].
  destruct (lookup_lt_is_Some_2 samples j Lj) as [vj Vj].
  rewrite (Hcells i vi Vi) in Hi. rewrite (Hcells j vj Vj) in Hj.
  injection Hi as <- _. injection Hj as <- _.
  pose proof (raster_index_range s Hin) as Hk.
  apply cell_offset_injective in Eo; try assumption;
    try (apply Z.mod_pos_bound; lia).
  revert Eo. apply shifted_indices_differ; lia.
Qed.

Lemma one_pass_offsets_distinct_witness :
  window_on_surface last_cell_chip /\ cursor_in_window last_cell_chip
  /\ width last_cell_chip * height last_cell_chip * 4 <= 2 ^ 32
  /\ Z.of_nat (length [1; 2; 3]) <= window_area last_cell_chip
  /\ exists s' o,
       process_data [1; 2; 3] last_cell_chip = Some (tt, s', o)
       /\ forall (i j : nat) oi ci oj cj,
            o !! i = Some (BufferWrite oi ci) -> o !! j = Some (BufferWrite oj cj) ->
            i <> j -> oi <> oj.
Proof.
  assert (Hs : window_on_surface last_cell_chip)
    by (unfold window_on_surface; simpl; lia).
  assert (Hin : cursor_in_window last_cell_chip)
    by (unfold cursor_in_window; simpl; lia).
  assert (Hfit : width last_cell_chip * height last_cell_chip * 4 <= 2 ^ 32)
    by (simpl; lia).
  assert (Hlen : Z.of_nat (length [1; 2; 3]) <= window_area last_cell_chip)
    by (vm_compute; discriminate).
  split; [exact Hs|]. split; [exact Hin|]. split; [exact Hfit|]. split; [exact Hlen|].
  exact (one_pass_offsets_distinct last_cell_chip [1; 2; 3] Hs Hin Hfit Hlen).
Defined.


(** ** Filling the parameter buffer *)

Lemma process_command_args_fill (buffer : list Z) :
  forall s, accumulator_ok s -> length (command_buf s) = 16%nat ->
  exists s' o,
    process_command_args buffer s = Some (tt, s', o)
    /\ accumulator_ok s'
    /\ command_code s' = command_code s /\ command_size s' = command_size s
    /\ length (command_buf s') = 16%nat
    /\ command_index s'
         = Z.min (command_index s + Z.of_nat (length buffer)) (command_size s)
    /\ (forall j : nat, Z.of_nat j < command_index s ->
          command_buf s' !! j = command_buf s !! j)
    /\ (forall (i : nat) (b : Z), buffer !! i = Some b ->
          command_index s + Z.of_nat i < command_size s ->
          command_buf s' !! Z.to_nat (command_index s + Z.of_nat i) = Some b).
Proof.
  unfold process_command_args.
  induction buffer as [|b0 rest IH]; intros s Hok Hlen; simpl for_each.
  - exists s, []. destruct Hok as [Hi Hs].
    split; [reflexivity|]. split; [split; assumption|].
    do 3 (split; [reflexivity || assumption|]).
    split; [simpl; lia|]. split; [reflexivity|]. intros i b H. discriminate.
  - destruct (process_command_args_byte_ok b0 s Hok)
      as (s1 & o1 & E1 & Hok1 & _ & _ & _ & Hc1 & Hs1 & Hl1 & _).
    assert (Hstep : (command_index s < command_size s
                     /\ command_index s1 = command_index s + 1
                     /\ command_buf s1
                        = <[Z.to_nat (command_index s) := b0]> (command_buf s))
                    \/ (command_size s <= command_index s /\ s1 = s)).
    { destruct (Z.lt_ge_cases (command_index s) (command_size s)) as [Hlt|Hge].
      - left. destruct (process_command_args_byte_slot b0 s Hok Hlt)
          as (s2 & o2 & E2 & _ & Hb2 & Hi2).
        rewrite E1 in E2. injection E2 as <- _. auto.
      - right. rewrite process_command_args_byte_idle in E1 by assumption.
        injection E1 as <- _. auto. }
    destruct (IH s1 Hok1 ltac:(congruence))
      as (s' & o & E & Hok' & Hc & Hs & Hl & Hi & Hkeep & Hput).
    exists s', (o1 ++ o). unfold bind. rewrite E1, E.
    split; [reflexivity|]. split; [assumption|].
    split; [congruence|]. split; [congruence|]. split; [assumption|].
    destruct Hok as [[Hi0 Hi1] Hs4].
    destruct Hstep as [(Hlt & Hidx1 & Hbuf1) | (Hge & ->)].
    + split; [rewrite Hi, Hidx1, Hs1, length_cons; lia|]. split.
      * intros j Hj. rewrite Hkeep by lia. rewrite Hbuf1.
        apply list_lookup_insert_ne. lia.
      * intros [|i] b Hb Hroom; simpl in Hb.
        -- injection Hb as <-. rewrite Z.add_0_r.
           rewrite Hkeep by lia. rewrite Hbuf1.
           apply list_lookup_insert_eq. lia.
        -- replace (command_index s + Z.of_nat (S i))
             with (command_index s1 + Z.of_nat i) by lia.
           apply Hput; [assumption|lia].
    + split; [rewrite Hi, length_cons; lia|]. split; [assumption|].
      intros i b Hb Hroom. lia.
Qed.


(** X15.  Once a chunk of argument bytes has supplied every argument the
    pending command still expects, whatever follows in data mode is ignored:
    the outcome (state and outputs) is that of the arguments alone. *)
Theorem surplus_argument_bytes_ignored (s : chip_state_t) (args surplus : list Z) :
  accumulator_ok s -> length (command_buf s) = 16%nat ->
  command_size s - command_index s <= Z.of_nat (length args) ->
  process_command_args (args ++ surplus) s = process_command_args args s.
Proof.
  intros Hok Hlen Hfull.
  destruct (process_command_args_fill args s Hok Hlen)
    as (s1 & o1 & E1 & [_ Hs4] & _ & Hs1 & _ & Hi1 & _).
  unfold process_command_args in *. rewrite for_each_app. unfold bind. rewrite E1.
  fold (process_command_args surplus).
  rewrite process_command_args_idle by lia. rewrite app_nil_r. reflexivity.
Qed.

Lemma surplus_argument_bytes_ignored_witness :
  accumulator_ok half_received_caset
  /\ length (command_buf half_received_caset) = 16%nat
  /\ command_size half_received_caset - command_index half_received_caset
       <= Z.of_nat (length [0; 20])
  /\ process_command_args ([0; 20] ++ [1; 2; 3]) half_received_caset
     = process_command_args [0; 20] half_received_caset.
Proof.
  assert (Hok : accumulator_ok half_received_caset)
    by (unfold accumulator_ok; simpl; lia).
  assert (Hfull : command_size half_received_caset - command_index half_received_caset
                  <= Z.of_nat (length [0; 20])) by (simpl; lia).
  split; [exact Hok|]. split; [reflexivity|]. split; [exact Hfull|].
  exact (surplus_argument_bytes_ignored half_received_caset [0; 20] [1; 2; 3]
           Hok eq_refl Hfull).
Defined.

(** ** Pin transitions *)

Lemma exec_some {A} (m : M A) (s s' : chip_state_t) :
  exec m s = Some s' <-> exists a o, m s = Some (a, s', o).
Proof.
  unfold exec. destruct (m s) as [[[a s1] o1]|]; split.
  - intros H. injection H as ->. eauto.
  - intros (a' & o' & H). injection H as _ -> _. reflexivity.
  - discriminate.
  - intros (a' & o' & H). discriminate.
Qed.

Lemma chip_pin_change_exec (cs : level) (pending : list Z) (pin : pin_t)
    (value : level) (s : chip_state_t) :
  exec (chip_pin_change cs pending pin value) s =
    match pin, value with
    | CS, LOW => Some s
    | CS, HIGH => exec (chip_spi_done HIGH pending) s
    | DC, _ =>
        if mode_eqb (mode s) (mode_of_level value) then Some s
        else match cs with
             | LOW => option_map (set_mode (mode_of_level value))
                        (exec (chip_spi_done LOW pending) s)
             | HIGH => Some (set_mode (mode_of_level value) s)
             end
    | RST, LOW =>
        match exec (chip_spi_done cs pending) s with
        | Some s1 => exec chip_reset s1
        | None => None
        end
    | RST, HIGH => Some s
    end.
Proof.
  unfold chip_pin_change, spi_stop.
  destruct pin, value; try reflexivity.
  - (* CS released *)
    cbv [exec bind get emit ret when level_eqb].
    destruct (chip_spi_done HIGH pending s) as [[[[] s1] o1]|]; reflexivity.
  - (* mode line low *)
    cbv [exec bind get emit ret when level_eqb modify].
    destruct (mode_eqb (mode s) (mode_of_level LOW)); simpl; [reflexivity|].
    destruct cs; [|reflexivity].
    destruct (chip_spi_done LOW pending s) as [[[[] s1] o1]|]; reflexivity.
  - (* mode line high *)
    cbv [exec bind get emit ret when level_eqb modify].
    destruct (mode_eqb (mode s) (mode_of_level HIGH)); simpl; [reflexivity|].
    destruct cs; [|reflexivity].
    destruct (chip_spi_done LOW pending s) as [[[[] s1] o1]|]; reflexivity.
  - (* reset *)
    cbv [exec bind get emit ret when level_eqb].
    destruct (chip_spi_done cs pending s) as [[[[] s1] o1]|]; [|reflexivity].
    destruct (chip_reset s1) as [[[[] s2] o2]|]; reflexivity.
Qed.


(** Delivering a chunk keeps the accumulator well formed, the mode and the
    surface size. *)
Lemma chip_spi_done_keeps (cs : level) (buffer : list Z) (s : chip_state_t) :
  accumulator_ok s ->
  exists s',
    exec (chip_spi_done cs buffer) s = Some s'
    /\ accumulator_ok s' /\ mode s' = mode s
    /\ width s' = width s /\ height s' = height s.
Proof.
  intros Hok.
  set (I := fun t => accumulator_ok t /\ mode t = mode s
                     /\ width t = width s /\ height t = height s).
  assert (HI : preserves I (chip_spi_done cs buffer)).
  { unfold chip_spi_done. destruct buffer as [|b rest]; [apply preserves_ret|].
    apply preserves_get; intros m. apply preserves_seq;
      [|apply preserves_when, preserves_emit].
    apply preserves_if; [apply preserves_get; intros rw; apply preserves_if|].
    - intros t (Aok & Am & Aw & Ah).
      destruct (process_data_frame (samples_of (b :: rest)) t) as (t' & o & E & F).
      exists t', o. split; [assumption|].
      apply same_but_cursor_fields in F.
      destruct F as (Fw & Fh & Fm & Fp & _).
      split; [eapply accumulator_ok_pending; eassumption|].
      repeat split; congruence.
    - unfold process_command_args. apply preserves_for_each.
      intros x t (Aok & Am & Aw & Ah).
      destruct (process_command_args_byte_ok x t Aok)
        as (t' & o & E & Hok' & Hw & Hh & Hm & _).
      exists t', o. split; [assumption|]. split; [assumption|].
      repeat split; congruence.
    - intros t (Aok & Am & Aw & Ah).
      destruct (process_command_run (b :: rest) t)
        as (t' & o & E & Hw & Hh & Hm & _ & _ & Hok').
      exists t', o. split; [assumption|].
      split; [apply Hok'; left; assumption|]. repeat split; congruence. }
  destruct (HI s) as (s' & o & E & H'); [unfold I; auto|].
  exists s'. split; [apply exec_some; eauto|exact H'].
Qed.

Lemma set_mode_keeps (m : chip_mode_t) (t s : chip_state_t) :
  accumulator_ok t /\ width t = width s /\ height t = height s ->
  accumulator_ok (set_mode m t) /\ mode (set_mode m t) = m
  /\ width (set_mode m t) = width s /\ height (set_mode m t) = height s.
Proof. destruct t; simpl. unfold accumulator_ok; simpl. tauto. Qed.

Lemma chip_reset_keeps (t s : chip_state_t) (m : chip_mode_t) :
  accumulator_ok t /\ mode t = m /\ width t = width s /\ height t = height s ->
  exists t', exec chip_reset t = Some t'
    /\ accumulator_ok t' /\ mode t' = m /\ width t' = width s /\ height t' = height s.
Proof.
  intros H. eexists. split; [destruct t; reflexivity|].
  destruct t; simpl in *. unfold accumulator_ok in *; simpl in *. tauto.
Qed.

Lemma handle_keeps (e : event) (s : chip_state_t) :
  accumulator_ok s ->
  exists s',
    exec (handle e) s = Some s'
    /\ accumulator_ok s' /\ mode s' = mode_after [e] (mode s)
    /\ width s' = width s /\ height s' = height s.
Proof.
  intros Hok. destruct e as [cs buffer|cs pending pin value]; simpl handle.
  - apply chip_spi_done_keeps. assumption.
  - rewrite chip_pin_change_exec.
    destruct (chip_spi_done_keeps HIGH pending s Hok) as (h1 & Eh & Hh).
    destruct (chip_spi_done_keeps LOW pending s Hok) as (l1 & El & Hl).
    destruct (chip_spi_done_keeps cs pending s Hok) as (c1 & Ec & Hc).
    destruct pin, value; unfold mode_after; simpl fold_left.
    + exists s. auto.
    + exists h1. auto.
    + destruct (mode s) eqn:Hm; simpl.
      * exists s. auto.
      * destruct cs.
        -- rewrite El. simpl. eexists. split; [reflexivity|].
           apply set_mode_keeps. tauto.
        -- eexists. split; [reflexivity|]. apply set_mode_keeps. tauto.
    + destruct (mode s) eqn:Hm; simpl.
      * destruct cs.
        -- rewrite El. simpl. eexists. split; [reflexivity|].
           apply set_mode_keeps. tauto.
        -- eexists. split; [reflexivity|]. apply set_mode_keeps. tauto.
      * exists s. auto.
    + rewrite Ec. apply chip_reset_keeps. assumption.
    + exists s. auto.
Qed.

(** X11.  From a well-formed accumulator every sequence of events runs to
    completion, and afterwards the mode is the level of the last transition
    reported on the mode line (the starting mode when there was none); the
    surface width and height are never changed. *)
Theorem mode_follows_mode_line (s : chip_state_t) (events : list event) :
  accumulator_ok s ->
  exists s',
    exec (run events) s = Some s'
    /\ accumulator_ok s'
    /\ mode s' = mode_after events (mode s)
    /\ width s' = width s /\ height s' = height s.
Proof.
  revert s. induction events as [|e rest IH]; intros s Hok.
  - exists s. auto.
  - destruct (handle_keeps e s Hok) as (s1 & E1 & Hok1 & Hm1 & Hw1 & Hh1).
    destruct (IH s1 Hok1) as (s' & E & Hok' & Hm & Hw & Hh).
    exists s'. split.
    + change (run (e :: rest)) with (handle e ;;; run rest). rewrite exec_bind.
      apply exec_some in E1. destruct E1 as (a & o & ->). exact E.
    + split; [assumption|]. split; [|split; congruence].
      rewrite Hm, Hm1. reflexivity.
Qed.

Lemma mode_follows_mode_line_witness :
  accumulator_ok reset_chip
  /\ exists s',
       exec (run busy_session) reset_chip = Some s'
       /\ accumulator_ok s'
       /\ mode s' = mode_after busy_session (mode reset_chip)
       /\ width s' = width reset_chip /\ height s' = height reset_chip.
Proof.
  assert (Hok : accumulator_ok reset_chip) by (unfold accumulator_ok; simpl; lia).
  split; [exact Hok|].
  exact (mode_follows_mode_line reset_chip busy_session Hok).
Defined.

(** X12.  A pin transition that arrives while the transport holds
    [pending] bytes acts on the chip state like the delivery of those bytes
    as a chunk, followed by the same transition with nothing pending, in
    the cases where the handler stops the transfer: select line released,
    mode line changed while selected, reset line activated.  In the other
    cases (select line asserted, mode line unchanged or changed while not
    selected, reset line released) the pending bytes play no part. *)
Theorem pin_change_flushes_pending_first (s : chip_state_t) (cs : level)
    (pending : list Z) (pin : pin_t) (value : level) :
  accumulator_ok s ->
  exec (chip_pin_change cs pending pin value) s =
    if flushes cs pin value s
    then exec (chip_spi_done (match pin with CS => value | _ => cs end) pending ;;;
               chip_pin_change cs [] pin value) s
    else exec (chip_pin_change cs [] pin value) s.
Proof.
  intros Hok. rewrite exec_bind. unfold flushes.
  destruct pin, value; try reflexivity.
  - (* CS released *)
    rewrite chip_pin_change_exec. unfold exec at 1.
    destruct (chip_spi_done HIGH pending s) as [[[[] s1] o1]|]; reflexivity.
  - (* mode line low *)
    rewrite (chip_pin_change_exec cs pending DC LOW s).
    destruct (chip_spi_done_keeps LOW pending s Hok) as (l1 & El & _ & Hm & _).
    destruct (mode_eqb (mode s) (mode_of_level LOW)) eqn:Hq; simpl;
      [rewrite chip_pin_change_exec, Hq; reflexivity|].
    destruct cs; simpl; [|rewrite chip_pin_change_exec, Hq; reflexivity].
    rewrite El. apply exec_some in El. destruct El as (a & o & ->).
    rewrite chip_pin_change_exec, Hm, Hq. reflexivity.
  - (* mode line high *)
    rewrite (chip_pin_change_exec cs pending DC HIGH s).
    destruct (chip_spi_done_keeps LOW pending s Hok) as (l1 & El & _ & Hm & _).
    destruct (mode_eqb (mode s) (mode_of_level HIGH)) eqn:Hq; simpl;
      [rewrite chip_pin_change_exec, Hq; reflexivity|].
    destruct cs; simpl; [|rewrite chip_pin_change_exec, Hq; reflexivity].
    rewrite El. apply exec_some in El. destruct El as (a & o & ->).
    rewrite chip_pin_change_exec, Hm, Hq. reflexivity.
  - (* reset *)
    rewrite chip_pin_change_exec. unfold exec at 1.
    destruct (chip_spi_done cs pending s) as [[[[] s1] o1]|]; [|reflexivity].
    rewrite chip_pin_change_exec. reflexivity.
Qed.

Lemma pin_change_flushes_pending_first_witness :
  accumulator_ok half_received_caset
  /\ exec (chip_pin_change LOW [0; 20] DC LOW) half_received_caset
     = exec (chip_spi_done LOW [0; 20] ;;; chip_pin_change LOW [] DC LOW)
         half_received_caset.
Proof.
  assert (Hok : accumulator_ok half_received_caset)
    by (unfold accumulator_ok; simpl; lia).
  split; [exact Hok|].
  exact (pin_change_flushes_pending_first half_received_caset LOW [0; 20] DC LOW Hok).
Defined.


(** ** What leaves the chip *)

Section EmitsOnly.
Variable P : output -> Prop.

Lemma emits_only_ret : emits_only P (ret tt).
Proof. intros s s' o H. injection H as _ <-. constructor. Qed.

Lemma emits_only_modify (f : chip_state_t -> chip_state_t) : emits_only P (modify f).
Proof. intros s s' o H. injection H as _ <-. constructor. Qed.

Lemma emits_only_emit (out : output) : P out -> emits_only P (emit out).
Proof. intros Hp s s' o H. injection H as _ <-. repeat constructor. assumption. Qed.

Lemma emits_only_fail : emits_only P undefined_behaviour.
Proof. intros s s' o H. discriminate. Qed.

Lemma emits_only_seq (m k : M unit) :
  emits_only P m -> emits_only P k -> emits_only P (m ;;; k).
Proof.
  intros Hm Hk s s' o H. unfold bind in H.
  destruct (m s) as [[[[] s1] o1]|] eqn:E1; [|discriminate].
  destruct (k s1) as [[[[] s2] o2]|] eqn:E2; [|discriminate].
  injection H as _ <-. apply Forall_app. split; [eapply Hm|eapply Hk]; eassumption.
Qed.

Lemma emits_only_get {A} (f : chip_state_t -> A) (k : A -> M unit) :
  (forall a, emits_only P (k a)) -> emits_only P (a <- get f ;; k a).
Proof.
  intros Hk s s' o H. unfold bind, get in H.
  destruct (k (f s) s) as [[[[] s2] o2]|] eqn:E2; [|discriminate].
  injection H as _ <-. simpl. eapply Hk. eassumption.
Qed.

Lemma emits_only_when (b : bool) (m : M unit) :
  emits_only P m -> emits_only P (when b m).
Proof. intros Hm. destruct b; [exact Hm|apply emits_only_ret]. Qed.

Lemma emits_only_if (b : bool) (m k : M unit) :
  emits_only P m -> emits_only P k -> emits_only P (if b then m else k).
Proof. intros Hm Hk. destruct b; assumption. Qed.

Lemma emits_only_for_each {A} (buffer : list A) (body : A -> M unit) :
  (forall x, emits_only P (body x)) -> emits_only P (for_each buffer body).
Proof.
  intros Hbody. induction buffer as [|x rest IH]; simpl.
  - apply emits_only_ret.
  - apply emits_only_seq; [apply Hbody|exact IH].
Qed.
End EmitsOnly.

Ltac emits_only_step :=
  lazymatch goal with
  | |- emits_only _ (ret _) => apply emits_only_ret
  | |- emits_only _ (modify _) => apply emits_only_modify
  | |- emits_only _ undefined_behaviour => apply emits_only_fail
  | |- emits_only _ (when _ _) => apply emits_only_when
  | |- emits_only _ (if _ then _ else _) => apply emits_only_if
  | |- emits_only _ (bind (get _) _) => apply emits_only_get; intro
  | |- emits_only _ (bind _ _) => apply emits_only_seq
  end.
Ltac emits_only_steps := repeat emits_only_step.

Lemma execute_command_warns_only :
  emits_only (fun out => exists code, out = UnknownCommand code) execute_command.
Proof.
  unfold execute_command. emits_only_steps.
  apply emits_only_emit. eauto.
Qed.

Lemma process_command_args_warns_only (buffer : list Z) :
  emits_only (fun out => exists code, out = UnknownCommand code)
    (process_command_args buffer).
Proof.
  unfold process_command_args. apply emits_only_for_each. intros b.
  unfold process_command_args_byte, store_command_buf. emits_only_steps.
  apply execute_command_warns_only.
Qed.

Lemma process_command_warns_only (buffer : list Z) :
  emits_only (fun out => exists code, out = UnknownCommand code)
    (process_command buffer).
Proof.
  unfold process_command. emits_only_steps. apply emits_only_for_each. intros b.
  unfold process_command_byte. emits_only_steps.
  apply execute_command_warns_only.
Qed.

Lemma emits_only_weaken (P Q : output -> Prop) (m : M unit) :
  (forall out, P out -> Q out) -> emits_only P m -> emits_only Q m.
Proof. intros Hpq Hm s s' o H. eapply Forall_impl; [eapply Hm; eassumption|exact Hpq]. Qed.

Lemma chip_spi_done_args (cs : level) (b : Z) (rest : list Z) (s : chip_state_t) :
  mode s = MODE_DATA -> ram_write s = false ->
  chip_spi_done cs (b :: rest) s =
    (process_command_args (b :: rest) ;;; when (level_eqb cs LOW) (emit SpiStart)) s.
Proof.
  intros Hm Hr.
  destruct s as [w h m cc sz ci cb rw ac c0 c1 ar r0 r1 sd]; simpl in Hm, Hr; subst m rw.
  cbv [chip_spi_done bind get mode ram_write mode_eqb].
  destruct (process_command_args (b :: rest) _) as [[[[] s1] o1]|]; [|reflexivity].
  destruct (when (level_eqb cs LOW) (emit SpiStart) s1) as [[[[] s2] o2]|]; reflexivity.
Qed.

(** X13.  A chunk delivered in command mode, or in data mode with the
    ram-write flag clear, never writes a pixel: command bytes and command
    arguments do not reach the framebuffer. *)
Theorem pixels_need_ram_write (s : chip_state_t) (cs : level) (buffer : list Z) :
  accumulator_ok s ->
  mode s = MODE_COMMAND \/ ram_write s = false ->
  exists s' o,
    chip_spi_done cs buffer s = Some (tt, s', o)
    /\ Forall (fun out => ~ is_pixel_write out) o.
Proof.
  intros Hok Hmode.
  destruct (chip_spi_done_keeps cs buffer s Hok) as (s' & E & _).
  apply exec_some in E. destruct E as ([] & o & E).
  exists s', o. split; [assumption|].
  destruct buffer as [|b rest]; [injection E as _ <-; constructor|].
  assert (Hw : forall out, (exists code, out = UnknownCommand code) ->
                           ~ is_pixel_write out).
  { intros out (code & ->) (off & c & H). discriminate. }
  assert (Hs : emits_only (fun out => ~ is_pixel_write out)
                 (when (level_eqb cs LOW) (emit SpiStart))).
  { apply emits_only_when, emits_only_emit. intros (off & c & H). discriminate. }
  assert (Hcmd : mode s = MODE_COMMAND -> Forall (fun out => ~ is_pixel_write out) o).
  { intros Hm. rewrite chip_spi_done_command in E by assumption.
    revert E. apply emits_only_seq; [|exact Hs].
    eapply emits_only_weaken; [exact Hw|apply process_command_warns_only]. }
  destruct Hmode as [Hm | Hr]; [auto|].
  destruct (mode s) eqn:Hm; [auto|].
  rewrite chip_spi_done_args in E by assumption.
  revert E. apply emits_only_seq; [|exact Hs].
  eapply emits_only_weaken; [exact Hw|apply process_command_args_warns_only].
Qed.

Lemma pixels_need_ram_write_witness :
  accumulator_ok half_received_caset
  /\ (mode half_received_caset = MODE_COMMAND \/ ram_write half_received_caset = false)
  /\ exists s' o,
       chip_spi_done LOW [0; 20; 1] half_received_caset = Some (tt, s', o)
       /\ Forall (fun out => ~ is_pixel_write out) o.
Proof.
  assert (Hok : accumulator_ok half_received_caset)
    by (unfold accumulator_ok; simpl; lia).
  split; [exact Hok|]. split; [right; reflexivity|].
  exact (pixels_need_ram_write half_received_caset LOW [0; 20; 1] Hok
           (or_intror eq_refl)).
Defined.

(** X14.  In data mode with the ram-write flag clear and a well-formed
    accumulator, a chunk never fails; the received count grows by one per
    byte until it reaches the expected count and stays there; the i-th byte
    of the chunk lands in slot [command_index + i] of the parameter buffer as
    long as that slot is below the expected count; the slots below the old
    received count, the command code and the expected count are untouched. *)
Theorem argument_chunk_fills_buffer (s : chip_state_t) (cs : level) (buffer : list Z) :
  mode s = MODE_DATA -> ram_write s = false ->
  accumulator_ok s -> length (command_buf s) = 16%nat ->
  exists s' o,
    chip_spi_done cs buffer s = Some (tt, s', o)
    /\ accumulator_ok s'
    /\ command_code s' = command_code s /\ command_size s' = command_size s
    /\ length (command_buf s') = 16%nat
    /\ command_index s'
         = Z.min (command_index s + Z.of_nat (length buffer)) (command_size s)
    /\ (forall j : nat, Z.of_nat j < command_index s ->
          command_buf s' !! j = command_buf s !! j)
    /\ (forall (i : nat) (b : Z), buffer !! i = Some b ->
          command_index s + Z.of_nat i < command_size s ->
          command_buf s' !! Z.to_nat (command_index s + Z.of_nat i) = Some b).
Proof.
  intros Hm Hr Hok Hlen.
  destruct (process_command_args_fill buffer s Hok Hlen) as (s' & o & E & H).
  destruct buffer as [|b0 rest].
  - injection E as <- <-. exists s, []. split; [reflexivity|exact H].
  - rewrite chip_spi_done_args by assumption. unfold bind. rewrite E.
    destruct cs; simpl; eexists _, _; (split; [reflexivity|exact H]).
Qed.

Lemma argument_chunk_fills_buffer_witness :
  mode half_received_caset = MODE_DATA /\ ram_write half_received_caset = false
  /\ accumulator_ok half_received_caset
  /\ length (command_buf half_received_caset) = 16%nat
  /\ exists s' o,
       chip_spi_done LOW [0; 20; 1] half_received_caset = Some (tt, s', o)
       /\ accumulator_ok s'
       /\ command_code s' = command_code half_received_caset
       /\ command_size s' = command_size half_received_caset
       /\ length (command_buf s') = 16%nat
       /\ command_index s'
            = Z.min (command_index half_received_caset + Z.of_nat (length [0; 20; 1]))
                (command_size half_received_caset)
       /\ (forall j : nat, Z.of_nat j < command_index half_received_caset ->
             command_buf s' !! j = command_buf half_received_caset !! j)
       /\ (forall (i : nat) (b : Z), [0; 20; 1] !! i = Some b ->
             command_index half_received_caset + Z.of_nat i
               < command_size half_received_caset ->
             command_buf s'
               !! Z.to_nat (command_index half_received_caset + Z.of_nat i) = Some b).
Proof.
  assert (Hok : accumulator_ok half_received_caset)
    by (unfold accumulator_ok; simpl; lia).
  split; [reflexivity|]. split; [reflexivity|]. split; [exact Hok|]. split; [reflexivity|].
  exact (argument_chunk_fills_buffer half_received_caset LOW [0; 20; 1]
           eq_refl eq_refl Hok eq_refl).
Defined.


(** ** Registers stay 16 bits wide *)

Section Keeps.
Variable I : chip_state_t -> Prop.

Lemma keeps_ret : keeps I (ret tt).
Proof. intros s s' o Hs H. injection H as <- _. assumption. Qed.

Lemma keeps_emit (out : output) : keeps I (emit out).
Proof. intros s s' o Hs H. injection H as <- _. assumption. Qed.

Lemma keeps_fail : keeps I undefined_behaviour.
Proof. intros s s' o Hs H. discriminate. Qed.

Lemma keeps_modify (f : chip_state_t -> chip_state_t) :
  (forall s, I s -> I (f s)) -> keeps I (modify f).
Proof. intros Hf s s' o Hs H. injection H as <- _. auto. Qed.

Lemma keeps_seq (m k : M unit) : keeps I m -> keeps I k -> keeps I (m ;;; k).
Proof.
  intros Hm Hk s s' o Hs H. unfold bind in H.
  destruct (m s) as [[[[] s1] o1]|] eqn:E1; [|discriminate].
  destruct (k s1) as [[[[] s2] o2]|] eqn:E2; [|discriminate].
  injection H as <- _. eapply Hk; [|eassumption]. eapply Hm; eassumption.
Qed.

Lemma keeps_get {A} (f : chip_state_t -> A) (k : A -> M unit) :
  (forall a, keeps I (k a)) -> keeps I (a <- get f ;; k a).
Proof.
  intros Hk s s' o Hs H. unfold bind, get in H.
  destruct (k (f s) s) as [[[[] s2] o2]|] eqn:E2; [|discriminate].
  injection H as <- _. eapply Hk; eassumption.
Qed.

Lemma keeps_when (b : bool) (m : M unit) : keeps I m -> keeps I (when b m).
Proof. intros Hm. destruct b; [exact Hm|apply keeps_ret]. Qed.

Lemma keeps_if (b : bool) (m k : M unit) :
  keeps I m -> keeps I k -> keeps I (if b then m else k).
Proof. intros Hm Hk. destruct b; assumption. Qed.

Lemma keeps_for_each {A} (buffer : list A) (body : A -> M unit) :
  (forall x, keeps I (body x)) -> keeps I (for_each buffer body).
Proof.
  intros Hbody. induction buffer as [|x rest IH]; simpl.
  - apply keeps_ret.
  - apply keeps_seq; [apply Hbody|exact IH].
Qed.
End Keeps.

Ltac keeps_step :=
  lazymatch goal with
  | |- keeps _ (ret _) => apply keeps_ret
  | |- keeps _ (emit _) => apply keeps_emit
  | |- keeps _ undefined_behaviour => apply keeps_fail
  | |- keeps _ (when _ _) => apply keeps_when
  | |- keeps _ (if _ then _ else _) => apply keeps_if
  | |- keeps _ (bind (get _) _) => apply keeps_get; intro
  | |- keeps _ (bind _ _) => apply keeps_seq
  end.
Ltac keeps_steps := repeat keeps_step.

Lemma arg16_is_u16 (hi lo : Z) : is_u16 (arg16 hi lo).
Proof. unfold is_u16, arg16, u16. apply Z.mod_pos_bound. lia. Qed.

Ltac keep_registers :=
  apply keeps_modify; intros t Ht; destruct t; unfold registers_16bit in *;
  simpl in *; repeat match goal with |- _ /\ _ => split end;
  first [tauto | apply arg16_is_u16 | unfold is_u16; lia].

Lemma execute_command_keeps_16bit : keeps registers_16bit execute_command.
Proof. unfold execute_command. keeps_steps; keep_registers. Qed.

Lemma process_command_keeps_16bit (buffer : list Z) :
  keeps registers_16bit (process_command buffer).
Proof.
  unfold process_command. keeps_steps; [keep_registers|].
  apply keeps_for_each. intros b. unfold process_command_byte.
  keeps_steps; try keep_registers. apply execute_command_keeps_16bit.
Qed.

Lemma process_command_args_keeps_16bit (buffer : list Z) :
  keeps registers_16bit (process_command_args buffer).
Proof.
  unfold process_command_args. apply keeps_for_each. intros b.
  unfold process_command_args_byte, store_command_buf.
  keeps_steps; try keep_registers. apply execute_command_keeps_16bit.
Qed.

Lemma chip_reset_keeps_16bit : keeps registers_16bit chip_reset.
Proof. unfold chip_reset. keeps_steps; keep_registers. Qed.

Lemma advance_cursor_16bit (s : chip_state_t) :
  registers_16bit s ->
  exists col row,
    advance_cursor s = Some (tt, set_cursor col row s, [])
    /\ is_u16 col /\ is_u16 row.
Proof.
  unfold registers_16bit, is_u16. intros (Hc0 & Hc1 & Hr0 & Hr1 & Hac & Har).
  destruct s as [w h m cc cs ci cb rw ac c0 c1 ar r0 r1 sd]; simpl in *.
  unfold advance_cursor, set_cursor. run_monad.
  destruct (scan_bit sd SCAN_MV); simpl;
    rewrite ?Z.gtb_ltb, ?(u32_small (ar + 1)), ?(u32_small (ac + 1)) by lia.
  - destruct (Z.ltb_spec r1 (ar + 1)); simpl;
      rewrite ?Z.gtb_ltb, ?(u32_small (ar + 1)), ?(u32_small (ac + 1)) by lia;
      [destruct (Z.ltb_spec c1 (ac + 1)); simpl|];
      eexists _, _; (split; [reflexivity|]); lia.
  - destruct (Z.ltb_spec c1 (ac + 1)); simpl;
      rewrite ?Z.gtb_ltb, ?(u32_small (ar + 1)), ?(u32_small (ac + 1)) by lia;
      [destruct (Z.ltb_spec r1 (ar + 1)); simpl|];
      eexists _, _; (split; [reflexivity|]); lia.
Qed.

Lemma process_data_keeps_16bit (samples : list Z) :
  keeps registers_16bit (process_data samples).
Proof.
  unfold process_data. apply keeps_for_each. intros v s s' o Hs H.
  rewrite process_data_sample_eq in H.
  destruct (advance_cursor_16bit s Hs) as (col & row & E & Hcol & Hrow).
  rewrite E in H. injection H as <- _.
  destruct s; unfold registers_16bit in *; simpl in *. tauto.
Qed.

Lemma chip_spi_done_keeps_16bit (cs : level) (buffer : list Z) :
  keeps registers_16bit (chip_spi_done cs buffer).
Proof.
  unfold chip_spi_done. destruct buffer as [|b rest]; [apply keeps_ret|].
  keeps_steps.
  - apply process_data_keeps_16bit.
  - apply process_command_args_keeps_16bit.
  - apply process_command_keeps_16bit.
Qed.

Lemma run_keeps_16bit (events : list event) : keeps registers_16bit (run events).
Proof.
  unfold run. apply keeps_for_each. intros [cs buffer|cs pending pin value]; simpl.
  - apply chip_spi_done_keeps_16bit.
  - unfold chip_pin_change, spi_stop.
    destruct pin; keeps_steps;
      try apply chip_spi_done_keeps_16bit; try apply chip_reset_keeps_16bit;
      keep_registers.
Qed.

(** X16.  When the window and cursor registers hold 16-bit values (as
    after a reset) and the accumulator is well formed, they hold 16-bit
    values after every sequence of events: the window is loaded from 16-bit
    arguments only and the cursor never runs past a window end by more than
    the step that wraps it.  In particular no 32-bit wrap-around of the
    cursor occurs. *)
Theorem registers_stay_16bit (s : chip_state_t) (events : list event) :
  accumulator_ok s -> registers_16bit s ->
  exists s' o,
    run events s = Some (tt, s', o)
    /\ registers_16bit s' /\ window_typed s'.
Proof.
  intros Hok Hreg.
  destruct (run_preserves accumulator_ok accumulator_ok_pending
              process_command_preserves_ok process_command_args_preserves_ok
              events s Hok) as (s' & o & E & _).
  exists s', o. split; [assumption|].
  pose proof (run_keeps_16bit events s s' o Hreg E) as H.
  split; [assumption|].
  unfold registers_16bit, is_u16 in H. unfold window_typed. lia.
Qed.

Lemma registers_stay_16bit_witness :
  accumulator_ok reset_chip /\ registers_16bit reset_chip
  /\ exists s' o,
       run busy_session reset_chip = Some (tt, s', o)
       /\ registers_16bit s' /\ window_typed s'.
Proof.
  assert (Hok : accumulator_ok reset_chip) by (unfold accumulator_ok; simpl; lia).
  assert (Hreg : registers_16bit reset_chip)
    by (unfold registers_16bit, is_u16; simpl; lia).
  split; [exact Hok|]. split; [exact Hreg|].
  exact (registers_stay_16bit reset_chip busy_session Hok Hreg).
Defined.
